(** * The community coordination core, embedded and verified

  A shallow embedding of the four classes of the coordination hook
  ([ConsciousnessPersistence], [DiscordCommunityInput],
  [CommunityCoordination] and the facade [CommunityCoordinationSystem])
  and the properties their specification states about them.

  Conventions of the embedding.
  - Every class is a record of its private fields; a method is a function
    from the arguments and the record to the result and the new record.
    A method that mutates an object held in a collection writes the new
    object back at the same key or index.
  - [Date.now()] and [Math.random()] are read from the environment: every
    read a method makes is an argument of its model, in the order of the
    reads.
  - A JS number that the code only counts with, indexes with or compares
    as a time stamp is an integer of [Z] (exact below 2^53). A number that
    may be fractional, and every number held in a dynamically typed
    object, is an IEEE binary64 [float], which is what a JS number is.
  - A method either returns or throws; the only exception the modelled
    code can raise is the [TypeError] of reading a property of [undefined]
    or [null], or of converting an object to a primitive. *)

From Stdlib Require Import ZArith PrimFloat Uint63 DecimalString.
From stdpp Require Import gmap strings list fin_maps.

#[local] Set Warnings "-register-all,-inexact-float".
#[local] Open Scope Z_scope.

(** ** JavaScript notions shared by the classes *)

Module Js.

(** How a call completes. The state that goes with a [TypeError] is the
    state at the moment of the throw: what was mutated stays mutated. *)
Inductive completion (A : Type) : Type :=
| Returned (a : A)
| TypeError.
Arguments Returned {A} a.
Arguments TypeError {A}.

(** Template-literal rendering of an integral number and of an index. *)
Definition show_Z (z : Z) : string := NilZero.string_of_int (Z.to_int z).
Definition show_nat (n : nat) : string := show_Z (Z.of_nat n).

(** An integer as a JS number. *)
Definition num_of_Z (z : Z) : float :=
  if z <? 0 then PrimFloat.opp (PrimFloat.of_uint63 (Uint63.of_Z (- z)))
  else PrimFloat.of_uint63 (Uint63.of_Z z).
Definition num_of_nat (n : nat) : float := num_of_Z (Z.of_nat n).

(** [a || d] on an optional string, number or integer: the default
    replaces [undefined] and every other falsy value. *)
Definition or_string (a : option string) (d : string) : string :=
  match a with
  | Some s => if decide (s = "") then d else s
  | None => d
  end.
Definition or_int (a : option Z) (d : Z) : Z :=
  match a with
  | Some z => if decide (z = 0) then d else z
  | None => d
  end.
Definition or_num (a : option float) (d : float) : float :=
  match a with
  | Some x => if (PrimFloat.eqb x 0 || PrimFloat.is_nan x)%bool then d else x
  | None => d
  end.

(** [arr.slice(start)]: a negative [start] counts from the end, and both
    ends are clamped to the array. *)
Definition slice_from {A : Type} (start : Z) (arr : list A) : list A :=
  let len := Z.of_nat (length arr) in
  let k := if start <? 0 then Z.max (len + start) 0 else Z.min start len in
  drop (Z.to_nat k) arr.

(** [arr[i]] for an integral [i]: no element at a negative index. *)
Definition index {A : Type} (arr : list A) (i : Z) : option A :=
  if i <? 0 then None else arr !! Z.to_nat i.

(** Dynamically typed values: what [JSON.parse] and object literals of
    the store produce, arrays left out. An object is the finite map of its
    own enumerable string-keyed properties; no modelled object has a
    prototype other than [Object.prototype], and no property read by the
    code ([consciousness], [version], [community], [contributionCount])
    lives on a prototype. *)
Inductive value : Type :=
| VUndefined
| VNull
| VBool (b : bool)
| VNum (x : float)
| VStr (s : string)
| VObj (o : gmap string value).

Abbreviation obj := (gmap string value).

(** [o.k] on an object: [undefined] when the key is absent. *)
Definition prop (o : obj) (k : string) : value := default VUndefined (o !! k).

(** [v.k] on any value: a [TypeError] ([None]) on [undefined] and [null],
    [undefined] on the other primitives. *)
Definition get_prop (v : value) (k : string) : option value :=
  match v with
  | VUndefined | VNull => None
  | VObj o => Some (prop o k)
  | VBool _ | VNum _ | VStr _ => Some VUndefined
  end.

(** Truthiness, as [if (v)] tests it. *)
Definition truthy (v : value) : bool :=
  match v with
  | VUndefined | VNull => false
  | VBool b => b
  | VNum x => negb (PrimFloat.eqb x 0 || PrimFloat.is_nan x)
  | VStr s => bool_decide (s ≠ "")
  | VObj _ => true
  end.

(** [v === s] for a string literal [s]. *)
Definition strict_eq_string (v : value) (s : string) : bool :=
  match v with
  | VStr t => bool_decide (t = s)
  | _ => false
  end.

(** The properties an object spread [{...v}] copies: the own properties
    of an object, the indexed characters of a string, nothing for the
    other primitives. *)
Definition own_props (v : value) : obj :=
  match v with
  | VObj o => o
  | VStr s =>
      list_to_map
        (imap (fun i c => (show_nat i, VStr (String c EmptyString)))
              (String.list_ascii_of_string s))
  | VUndefined | VNull | VBool _ | VNum _ => ∅
  end.

(** [{...a, ...b}]: the properties of [b] win. *)
Definition spread (a b : obj) : obj := b ∪ a.

(** The participation levels, ranked in the order in which the
    [ConsciousnessState] interface lists them: observer, active,
    contributor. Anything else ranks with the lowest. *)
Definition participation_rank (level : value) : nat :=
  match level with
  | VStr s =>
      if decide (s = "contributor") then 2%nat
      else if decide (s = "active") then 1%nat
      else 0%nat
  | _ => 0%nat
  end.

(** [v + 1]. A string concatenates; an object is first converted by
    [Object.prototype.toString], which an own [toString] property (never
    callable here) disables, so that the conversion throws. *)
Definition add_one (v : value) : completion value :=
  match v with
  | VUndefined => Returned (VNum PrimFloat.nan)
  | VNull => Returned (VNum 1)
  | VBool b => Returned (VNum (if b then 2 else 1))
  | VNum x => Returned (VNum (x + 1)%float)
  | VStr s => Returned (VStr (s +:+ "1"))
  | VObj o =>
      match o !! "toString" with
      | Some _ => TypeError
      | None => Returned (VStr "[object Object]1")
      end
  end.

End Js.

Import Js.

(** ** ConsciousnessPersistence *)

Module ConsciousnessPersistence.

(** The private fields. [currentState] is the object the class holds;
    [persisted] is the record most recently handed to
    [AsyncStorage.setItem] under [storageKey] ([None] before the first
    write). Whether the device completes a write, and the listeners that
    are told of it, are outside the model. *)
Record t : Type := {
  currentState : obj;
  persisted : option obj
}.

(** [saveState]: the merge and the write request happen before the first
    suspension of the async function, hence within the caller's turn. *)
Definition saveState (state : obj) (self : t) : t :=
  let merged := spread (currentState self) state in
  {| currentState := merged; persisted := Some merged |}.

Definition getDefaultState (t_id t_active : Z) (platform : string) : obj :=
  list_to_map [
    ("userId", VStr ("user_" +:+ show_Z t_id));
    ("currentPhase", VStr "seed");
    ("lastActive", VNum (num_of_Z t_active));
    ("spiral", VObj (list_to_map [
       ("depth", VNum 0);
       ("direction", VStr "clockwise");
       ("resonance", VNum 0.5)]));
    ("community", VObj (list_to_map [
       ("participationLevel", VStr "observer");
       ("contributionCount", VNum 0);
       ("lastContribution", VNull)]));
    ("preferences", VObj (list_to_map [
       ("notifications", VBool true);
       ("autoSync", VBool true);
       ("platform", VStr platform)]))
  ].

(** The constructor, before the asynchronous [loadState] has answered. *)
Definition new (t_id t_active : Z) (platform : string) : t :=
  {| currentState := getDefaultState t_id t_active platform;
     persisted := None |}.

Definition updateSpiral (spiralData : obj) (now : Z) (self : t) : t :=
  saveState
    (list_to_map [
       ("spiral",
        VObj (spread (own_props (prop (currentState self) "spiral")) spiralData));
       ("lastActive", VNum (num_of_Z now))])
    self.

Definition updateCommunityParticipation
    (participationData : obj) (now : Z) (self : t) : t :=
  saveState
    (list_to_map [
       ("community",
        VObj (spread (own_props (prop (currentState self) "community"))
                     participationData));
       ("lastActive", VNum (num_of_Z now))])
    self.

Definition updatePhase (newPhase : string) (now : Z) (self : t) : t :=
  saveState
    (list_to_map [
       ("currentPhase", VStr newPhase);
       ("lastActive", VNum (num_of_Z now))])
    self.

Definition getState (self : t) : obj := currentState self.

Definition exportState (now : Z) (self : t) : obj :=
  <["version" := VStr "1.0"]>
    (<["exportedAt" := VNum (num_of_Z now)]> (currentState self)).

Definition importState (importedState : value) (self : t)
    : completion bool * t :=
  match get_prop importedState "version" with
  | None => (TypeError, self)
  | Some version =>
      if strict_eq_string version "1.0"
      then (Returned true, saveState (own_props importedState) self)
      else (Returned false, self)
  end.

End ConsciousnessPersistence.

(** ** DiscordCommunityInput *)

Module DiscordCommunityInput.

(** The union ['message' | 'poll' | 'discussion']; [poll_input] is ['poll']. *)
Inductive InputType : Type := message | poll_input | discussion.

(** [interface CommunityInput]; [type_] is its [type]. A field name that
    several interfaces of the hook share ([id], [type], [description],
    [createdAt], ...) keeps its name in one record and takes the name of
    the interface as a prefix in the others. *)
Record CommunityInput : Type := {
  id : string;
  channelId : string;
  content : string;
  author : string;
  timestamp : Z;
  type_ : InputType;
  reactions : list string;
  responses : list string
}.

(** The fields [addInput] reads of its [Partial<CommunityInput>]. *)
Record PartialInput : Type := {
  in_content : option string;
  in_author : option string;
  in_type : option InputType
}.

Record PollOption : Type := {
  text : string;
  votes : Z;
  voters : list string
}.

Record Poll : Type := {
  poll_id : string;
  poll_channelId : string;
  question : string;
  options : list PollOption;
  createdBy : string;
  createdAt : Z;
  endsAt : Z;
  active : bool
}.

Record PollData : Type := {
  pd_question : string;
  pd_options : list string;
  pd_author : string;
  pd_duration : option Z
}.

Record Channel : Type := {
  name : string;
  description : string;
  channel_type : string;
  channel_inputs : list CommunityInput
}.

(** The private fields ([discussions] is never written or read). The two
    [Map]s are finite maps: no claim depends on their insertion order. *)
Record t : Type := {
  inputs : list CommunityInput;
  channels : gmap string Channel;
  polls : gmap string Poll
}.

Definition initializeChannels : gmap string Channel :=
  <["the-keep" :=
      {| name := "the-keep";
         description := "Governance and community decisions";
         channel_type := "governance"; channel_inputs := [] |}]>
  (<["temple-of-flame" :=
      {| name := "temple-of-flame";
         description := "Philosophical and spiritual exploration";
         channel_type := "spiritual"; channel_inputs := [] |}]>
  (<["tower-of-code" :=
      {| name := "tower-of-code";
         description := "Technical discussions and development";
         channel_type := "technical"; channel_inputs := [] |}]>
  (<["sanctuary" :=
      {| name := "sanctuary";
         description := "Welcome space for new members";
         channel_type := "general"; channel_inputs := [] |}]> ∅))).

Definition new : t :=
  {| inputs := []; channels := initializeChannels; polls := ∅ |}.

Definition push_input (inputData : CommunityInput) (c : Channel) : Channel :=
  {| name := name c; description := description c;
     channel_type := channel_type c;
     channel_inputs := channel_inputs c ++ [inputData] |}.

(** [addInput]. [t_id] and [rnd] are the clock reading and the random
    suffix of the id, [t_stamp] the clock reading of the time stamp. *)
Definition addInput (channel : string) (input : PartialInput)
    (t_id : Z) (rnd : string) (t_stamp : Z) (self : t) : string * t :=
  let inputData :=
    {| id := "input_" +:+ show_Z t_id +:+ "_" +:+ rnd;
       channelId := channel;
       content := or_string (in_content input) "";
       author := or_string (in_author input) "Anonymous";
       timestamp := t_stamp;
       type_ := default message (in_type input);
       reactions := [];
       responses := [] |} in
  let inputs' := inputs self ++ [inputData] in
  let channels' :=
    match channels self !! channel with
    | Some c => <[channel := push_input inputData c]> (channels self)
    | None => channels self
    end in
  (id inputData, {| inputs := inputs'; channels := channels'; polls := polls self |}).

(** [createPoll]. The clock is read for the id, for [createdAt] and for
    [endsAt], then twice more by [addInput]. *)
Definition createPoll (channel : string) (pollData : PollData)
    (t_id t_created t_ends t_in : Z) (rnd : string) (t_stamp : Z) (self : t)
    : string * t :=
  let poll :=
    {| poll_id := "poll_" +:+ show_Z t_id;
       poll_channelId := channel;
       question := pd_question pollData;
       options :=
         (fun option => {| text := option; votes := 0; voters := [] |})
           <$> pd_options pollData;
       createdBy := pd_author pollData;
       createdAt := t_created;
       endsAt := t_ends + or_int (pd_duration pollData) 86400000;
       active := true |} in
  let self1 :=
    {| inputs := inputs self; channels := channels self;
       polls := <[poll_id poll := poll]> (polls self) |} in
  let '(_, self2) :=
    addInput channel
      {| in_content := Some ("📊 Poll: " +:+ question poll);
         in_author := Some (createdBy poll);
         in_type := Some poll_input |}
      t_in rnd t_stamp self1 in
  (poll_id poll, self2).

(** The body of the [forEach] of [voteOnPoll]: [indexOf], then [splice]
    and the decrement when the user is found. *)
Definition retract_vote (userId : string) (option : PollOption) : PollOption :=
  match list_find (fun v => v = userId) (voters option) with
  | Some (voterIndex, _) =>
      {| text := text option;
         votes := votes option - 1;
         voters := delete voterIndex (voters option) |}
  | None => option
  end.

Definition add_vote (userId : string) (option : PollOption) : PollOption :=
  {| text := text option;
     votes := votes option + 1;
     voters := voters option ++ [userId] |}.

Definition with_options (p : Poll) (os : list PollOption) : Poll :=
  {| poll_id := poll_id p; poll_channelId := poll_channelId p;
     question := question p; options := os; createdBy := createdBy p;
     createdAt := createdAt p; endsAt := endsAt p; active := active p |}.

Definition with_polls (self : t) (ps : gmap string Poll) : t :=
  {| inputs := inputs self; channels := channels self; polls := ps |}.

(** [voteOnPoll]. [optionIndex] ranges over the integers. The guard has no
    lower bound: below zero [poll.options[optionIndex]] is [undefined] and
    reading its [voters] throws, after the [forEach] has run. *)
Definition voteOnPoll (pollId : string) (optionIndex : Z) (userId : string)
    (self : t) : completion bool * t :=
  match polls self !! pollId with
  | None => (Returned false, self)
  | Some poll =>
      if negb (active poll) || (Z.of_nat (length (options poll)) <=? optionIndex)
      then (Returned false, self)
      else
        let retracted := retract_vote userId <$> options poll in
        match index retracted optionIndex with
        | None =>
            (TypeError,
             with_polls self (<[pollId := with_options poll retracted]> (polls self)))
        | Some option =>
            (Returned true,
             with_polls self
               (<[pollId :=
                    with_options poll
                      (<[Z.to_nat optionIndex := add_vote userId option]> retracted)]>
                  (polls self)))
        end
  end.

(** [getChannelInputs]; [limit] is [None] when the argument is omitted. *)
Definition getChannelInputs (channel : string) (limit : option Z) (self : t)
    : list CommunityInput :=
  match channels self !! channel with
  | Some c => reverse (slice_from (- default 50 limit) (channel_inputs c))
  | None => []
  end.

Definition getActivePolls (now : Z) (self : t) : list Poll :=
  filter (fun p => active p = true ∧ now < endsAt p)
         (snd <$> map_to_list (polls self)).

Record CommunityActivity : Type := {
  totalInputs : nat;
  recentInputs : nat;
  activePolls : nat;
  activeDiscussions : nat;
  channelActivity : gmap string (string * nat)
}.

(** [getCommunityActivity]; [t_now] is its own clock reading, [t_polls]
    the one of [getActivePolls]. The per-channel entries are kept as the
    map they are computed from. *)
Definition getCommunityActivity (t_now t_polls : Z) (self : t) : CommunityActivity :=
  let last24h := t_now - 86400000 in
  let recent := filter (fun i => last24h < timestamp i) (inputs self) in
  {| totalInputs := length (inputs self);
     recentInputs := length recent;
     activePolls := length (getActivePolls t_polls self);
     activeDiscussions := 0;
     channelActivity :=
       (fun c => (name c,
                  length (filter (fun i => last24h < timestamp i) (channel_inputs c))))
         <$> channels self |}.

End DiscordCommunityInput.

(** ** CommunityCoordination *)

Module CommunityCoordination.

Inductive RsvpStatus : Type := attending | maybe | declined.

Record Attendee : Type := {
  memberId : string;
  status : RsvpStatus;
  rsvpAt : Z
}.

Record CommunityEvent : Type := {
  event_id : string;
  title : string;
  description : string;
  scheduledFor : Z;
  duration : Z;
  organizer : string;
  attendees : list Attendee;
  event_type : string;
  location : string;
  event_createdAt : Z
}.

Record EventData : Type := {
  ed_title : string;
  ed_description : string;
  ed_scheduledFor : Z;
  ed_organizer : string;
  ed_duration : option Z;
  ed_type : option string;
  ed_location : option string
}.

Inductive Vote : Type := support | oppose | abstain.

Inductive ItemStatus : Type := voting | approved | failed.

Record Ballot : Type := {
  ballot_memberId : string;
  ballot_timestamp : Z
}.

Record Votes : Type := {
  votes_support : list Ballot;
  votes_oppose : list Ballot;
  votes_abstain : list Ballot
}.

Record ConsensusItem : Type := {
  item_id : string;
  item_title : string;
  item_description : string;
  proposedBy : string;
  item_createdAt : Z;
  votingEnds : Z;
  item_votes : Votes;
  item_status : ItemStatus;
  consensusThreshold : float
}.

Record ItemData : Type := {
  id_title : string;
  id_description : string;
  id_proposedBy : string;
  id_votingPeriod : option Z;
  id_consensusThreshold : option float
}.

#[global] Instance ItemStatus_eq_dec : EqDecision ItemStatus.
Proof. solve_decision. Defined.

Record t : Type := {
  events : list CommunityEvent;
  consensusItems : list ConsensusItem
}.

Definition new : t := {| events := []; consensusItems := [] |}.

Definition scheduleEvent (eventData : EventData) (t_id t_created : Z) (self : t)
    : string * t :=
  let event :=
    {| event_id := "event_" +:+ show_Z t_id;
       title := ed_title eventData;
       description := ed_description eventData;
       scheduledFor := ed_scheduledFor eventData;
       duration := or_int (ed_duration eventData) 3600000;
       organizer := ed_organizer eventData;
       attendees := [];
       event_type := or_string (ed_type eventData) "general";
       location := or_string (ed_location eventData) "virtual";
       event_createdAt := t_created |} in
  (event_id event,
   {| events := events self ++ [event]; consensusItems := consensusItems self |}).

Definition with_attendees (e : CommunityEvent) (l : list Attendee) : CommunityEvent :=
  {| event_id := event_id e; title := title e; description := description e;
     scheduledFor := scheduledFor e; duration := duration e;
     organizer := organizer e; attendees := l; event_type := event_type e;
     location := location e; event_createdAt := event_createdAt e |}.

(** [rsvpToEvent]; [rsvp] is [None] when the third argument is omitted. *)
Definition rsvpToEvent (eventId member : string) (rsvp : option RsvpStatus)
    (now : Z) (self : t) : bool * t :=
  match list_find (fun e => event_id e = eventId) (events self) with
  | None => (false, self)
  | Some (i, event) =>
      let kept := filter (fun a => memberId a ≠ member) (attendees event) in
      let attendees' :=
        kept ++ [{| memberId := member;
                    status := default attending rsvp;
                    rsvpAt := now |}] in
      (true,
       {| events := <[i := with_attendees event attendees']> (events self);
          consensusItems := consensusItems self |})
  end.

Definition createConsensusItem (itemData : ItemData)
    (t_id t_created t_ends : Z) (self : t) : string * t :=
  let item :=
    {| item_id := "consensus_" +:+ show_Z t_id;
       item_title := id_title itemData;
       item_description := id_description itemData;
       proposedBy := id_proposedBy itemData;
       item_createdAt := t_created;
       votingEnds := t_ends + or_int (id_votingPeriod itemData) 604800000;
       item_votes :=
         {| votes_support := []; votes_oppose := []; votes_abstain := [] |};
       item_status := voting;
       consensusThreshold := or_num (id_consensusThreshold itemData) 0.67 |} in
  (item_id item,
   {| events := events self; consensusItems := consensusItems self ++ [item] |}).

Definition with_votes (it : ConsensusItem) (v : Votes) : ConsensusItem :=
  {| item_id := item_id it; item_title := item_title it;
     item_description := item_description it; proposedBy := proposedBy it;
     item_createdAt := item_createdAt it; votingEnds := votingEnds it;
     item_votes := v; item_status := item_status it;
     consensusThreshold := consensusThreshold it |}.

Definition with_status (it : ConsensusItem) (s : ItemStatus) : ConsensusItem :=
  {| item_id := item_id it; item_title := item_title it;
     item_description := item_description it; proposedBy := proposedBy it;
     item_createdAt := item_createdAt it; votingEnds := votingEnds it;
     item_votes := item_votes it; item_status := s;
     consensusThreshold := consensusThreshold it |}.

(** One round of the [forEach] of [voteOnConsensus]: [findIndex], then
    [splice] when a ballot of the member is found. *)
Definition retract_ballot (member : string) (voteArray : list Ballot) : list Ballot :=
  match list_find (fun v => ballot_memberId v = member) voteArray with
  | Some (i, _) => delete i voteArray
  | None => voteArray
  end.

Definition push_ballot (vote : Vote) (b : Ballot) (v : Votes) : Votes :=
  match vote with
  | support =>
      {| votes_support := votes_support v ++ [b];
         votes_oppose := votes_oppose v; votes_abstain := votes_abstain v |}
  | oppose =>
      {| votes_support := votes_support v;
         votes_oppose := votes_oppose v ++ [b]; votes_abstain := votes_abstain v |}
  | abstain =>
      {| votes_support := votes_support v;
         votes_oppose := votes_oppose v; votes_abstain := votes_abstain v ++ [b] |}
  end.

(** The first two steps of [voteOnConsensus] on the item: the previous
    ballot of the member leaves each of the three arrays, the new one
    joins the array of the vote. *)
Definition record_ballot (member : string) (vote : Vote) (now : Z)
    (it : ConsensusItem) : ConsensusItem :=
  let v := item_votes it in
  let cleared :=
    {| votes_support := retract_ballot member (votes_support v);
       votes_oppose := retract_ballot member (votes_oppose v);
       votes_abstain := retract_ballot member (votes_abstain v) |} in
  with_votes it
    (push_ballot vote {| ballot_memberId := member; ballot_timestamp := now |} cleared).

(** [Object.values(item.votes).reduce((sum, votes) => sum + votes.length, 0)] *)
Definition totalVotes (it : ConsensusItem) : nat :=
  foldl (fun sum votes => (sum + length votes)%nat) 0%nat
        [votes_support (item_votes it);
         votes_oppose (item_votes it);
         votes_abstain (item_votes it)].

Definition supportVotes (it : ConsensusItem) : nat :=
  length (votes_support (item_votes it)).

(** [checkConsensus]; the clock is read only in the second test. *)
Definition checkConsensus (now : Z) (it : ConsensusItem) : ConsensusItem :=
  if (0 <? totalVotes it)%nat then
    let supportRatio := (num_of_nat (supportVotes it) / num_of_nat (totalVotes it))%float in
    if (consensusThreshold it <=? supportRatio)%float then with_status it approved
    else if votingEnds it <? now then with_status it failed
    else it
  else it.

(** [voteOnConsensus]. The test [if (item.votes[vote])] is on an array,
    which is truthy: for each of the three votes the ballot is pushed. *)
Definition voteOnConsensus (itemId member : string) (vote : Vote)
    (t_ballot t_check : Z) (self : t) : bool * t :=
  match list_find (fun i => item_id i = itemId) (consensusItems self) with
  | None => (false, self)
  | Some (i, item) =>
      if decide (item_status item ≠ voting) then (false, self)
      else
        let item' := checkConsensus t_check (record_ballot member vote t_ballot item) in
        (true,
         {| events := events self;
            consensusItems := <[i := item']> (consensusItems self) |})
  end.

Definition getActiveConsensusItems (self : t) : list ConsensusItem :=
  filter (fun item => item_status item = voting) (consensusItems self).

End CommunityCoordination.

(** ** CommunityCoordinationSystem *)

Module CommunityCoordinationSystem.

Record t : Type := {
  consciousness : ConsciousnessPersistence.t;
  discord : DiscordCommunityInput.t;
  coordination : CommunityCoordination.t
}.

Definition with_discord (self : t) (d : DiscordCommunityInput.t) : t :=
  {| consciousness := consciousness self; discord := d;
     coordination := coordination self |}.

Definition with_consciousness (self : t) (c : ConsciousnessPersistence.t) : t :=
  {| consciousness := c; discord := discord self;
     coordination := coordination self |}.

(** [addCommunityInput]. The argument of [updateCommunityParticipation]
    is evaluated after [addInput] has run, so a throw while reading
    [community.contributionCount] leaves the input recorded. [t_contrib]
    is the clock reading of [lastContribution], [t_active] the one
    [updateCommunityParticipation] makes. *)
Definition addCommunityInput (channelId content author : string)
    (t_id : Z) (rnd : string) (t_stamp t_contrib t_active : Z) (self : t)
    : completion string * t :=
  let '(inputId, discord') :=
    DiscordCommunityInput.addInput channelId
      {| DiscordCommunityInput.in_content := Some content;
         DiscordCommunityInput.in_author := Some author;
         DiscordCommunityInput.in_type := None |}
      t_id rnd t_stamp (discord self) in
  let self1 := with_discord self discord' in
  let community :=
    prop (ConsciousnessPersistence.getState (consciousness self)) "community" in
  match get_prop community "contributionCount" with
  | None => (TypeError, self1)
  | Some count =>
      match add_one count with
      | TypeError => (TypeError, self1)
      | Returned count' =>
          (Returned inputId,
           with_consciousness self1
             (ConsciousnessPersistence.updateCommunityParticipation
                (list_to_map [
                   ("contributionCount", count');
                   ("lastContribution", VNum (num_of_Z t_contrib));
                   ("participationLevel", VStr "active")])
                t_active (consciousness self)))
      end
  end.

Record SyncData : Type := {
  sync_consciousness : obj;
  sync_timestamp : Z;
  sync_platform : string
}.

Definition exportForSync (t_export t_sync : Z) (platform : string) (self : t)
    : SyncData :=
  {| sync_consciousness := ConsciousnessPersistence.exportState t_export (consciousness self);
     sync_timestamp := t_sync;
     sync_platform := platform |}.

(** The object [exportForSync] returns, as a value. *)
Definition sync_value (d : SyncData) : value :=
  VObj (list_to_map [
    ("consciousness", VObj (sync_consciousness d));
    ("timestamp", VNum (num_of_Z (sync_timestamp d)));
    ("platform", VStr (sync_platform d))]).

Definition importFromSync (syncData : value) (self : t) : completion bool * t :=
  match get_prop syncData "consciousness" with
  | None => (TypeError, self)
  | Some c =>
      if truthy c then
        let '(r, store') := ConsciousnessPersistence.importState c (consciousness self) in
        (r, with_consciousness self store')
      else (Returned false, self)
  end.

End CommunityCoordinationSystem.

Module CP := ConsciousnessPersistence.
Module DCI := DiscordCommunityInput.
Module CC := CommunityCoordination.
Module CCS := CommunityCoordinationSystem.

(** ** Sequences of calls *)

(** The calls that reach the polls of a ledger. A call that throws leaves
    the ledger as it was at the throw, and the next call runs on that. *)
Inductive ledger_call : Type :=
| AddInput (channel : string) (input : DCI.PartialInput)
    (t_id : Z) (rnd : string) (t_stamp : Z)
| CreatePoll (channel : string) (pollData : DCI.PollData)
    (t_id t_created t_ends t_in : Z) (rnd : string) (t_stamp : Z)
| VoteOnPoll (pollId : string) (optionIndex : Z) (userId : string).

Definition ledger_step (self : DCI.t) (c : ledger_call) : DCI.t :=
  match c with
  | AddInput channel input t_id rnd t_stamp =>
      (DCI.addInput channel input t_id rnd t_stamp self).2
  | CreatePoll channel pollData t_id t_created t_ends t_in rnd t_stamp =>
      (DCI.createPoll channel pollData t_id t_created t_ends t_in rnd t_stamp self).2
  | VoteOnPoll pollId optionIndex userId =>
      (DCI.voteOnPoll pollId optionIndex userId self).2
  end.

Definition ledger_run (calls : list ledger_call) (self : DCI.t) : DCI.t :=
  foldl ledger_step self calls.

(** The votes one user casts on one poll, one option index per call. *)
Definition votes_by (pollId userId : string) (indices : list Z) (self : DCI.t) : DCI.t :=
  ledger_run ((fun i => VoteOnPoll pollId i userId) <$> indices) self.

(** The sum of the [votes] counters of a poll, and the number of its
    options that list a user among their [voters]. *)
Definition sum_votes (os : list DCI.PollOption) : Z :=
  foldr (fun o acc => DCI.votes o + acc) 0 os.

Definition vote_sum (p : DCI.Poll) : Z := sum_votes (DCI.options p).

Definition options_holding (userId : string) (p : DCI.Poll) : nat :=
  length (filter (fun o => userId ∈ DCI.voters o) (DCI.options p)).

(** The calls of the coordination class. *)
Inductive coordination_call : Type :=
| ScheduleEvent (eventData : CC.EventData) (t_id t_created : Z)
| RsvpToEvent (eventId member : string) (rsvp : option CC.RsvpStatus) (now : Z)
| CreateConsensusItem (itemData : CC.ItemData) (t_id t_created t_ends : Z)
| VoteOnConsensus (itemId member : string) (vote : CC.Vote) (t_ballot t_check : Z).

Definition coordination_step (self : CC.t) (c : coordination_call) : CC.t :=
  match c with
  | ScheduleEvent eventData t_id t_created =>
      (CC.scheduleEvent eventData t_id t_created self).2
  | RsvpToEvent eventId member rsvp now =>
      (CC.rsvpToEvent eventId member rsvp now self).2
  | CreateConsensusItem itemData t_id t_created t_ends =>
      (CC.createConsensusItem itemData t_id t_created t_ends self).2
  | VoteOnConsensus itemId member vote t_ballot t_check =>
      (CC.voteOnConsensus itemId member vote t_ballot t_check self).2
  end.

Definition coordination_run (calls : list coordination_call) (self : CC.t) : CC.t :=
  foldl coordination_step self calls.

(** The RSVPs one member sends for one event: the status and the clock
    reading of each call. *)
Definition rsvps_by (eventId member : string)
    (calls : list (option CC.RsvpStatus * Z)) (self : CC.t) : CC.t :=
  coordination_run ((fun c => RsvpToEvent eventId member c.1 c.2) <$> calls) self.

(** The resolution rule in the words of the specification: [total] is the
    number of ballots, [supporting] the number of them in support. *)
Definition resolution_rule (supporting total : nat) (threshold : float)
    (now votingEnds : Z) (current : CC.ItemStatus) : CC.ItemStatus :=
  if decide (total = 0%nat) then current
  else if (threshold <=? num_of_nat supporting / num_of_nat total)%float
       then CC.approved
  else if decide (votingEnds < now) then CC.failed
  else CC.voting.

(** ** States to run the calls on *)

Definition demo_store : CP.t := CP.new 1700000000000 1700000000001 "ios".

Definition demo_system : CCS.t :=
  {| CCS.consciousness := demo_store;
     CCS.discord := DCI.new;
     CCS.coordination := CC.new |}.

(** A system whose user has reached the level [contributor]. *)
Definition contributor_system : CCS.t :=
  {| CCS.consciousness :=
       {| CP.currentState :=
            <["community" :=
                VObj (list_to_map [
                  ("participationLevel", VStr "contributor");
                  ("contributionCount", VNum 41);
                  ("lastContribution", VNum 1699999999000)])]>
              (CP.getDefaultState 1700000000000 1700000000001 "ios");
          CP.persisted := None |};
     CCS.discord := DCI.new;
     CCS.coordination := CC.new |}.

(** [consciousness.getState().community.participationLevel] *)
Definition level_of (sys : CCS.t) : value :=
  prop (own_props (prop (CP.currentState (CCS.consciousness sys)) "community"))
       "participationLevel".

(** A ledger whose channel [sanctuary] holds two inputs. *)
Definition two_inputs_ledger : DCI.t :=
  ledger_run
    [AddInput "sanctuary"
       {| DCI.in_content := Some "first"; DCI.in_author := Some "u1";
          DCI.in_type := None |}
       1700000000000 "k3j9x0a1b" 1700000000000;
     AddInput "sanctuary"
       {| DCI.in_content := Some "second"; DCI.in_author := Some "u2";
          DCI.in_type := None |}
       1700000000500 "q8w7e6r5t" 1700000000500]
    DCI.new.

(** A ledger with one poll, of options ["A"] and ["B"]. *)
Definition poll_AB : ledger_call :=
  CreatePoll "the-keep"
    {| DCI.pd_question := "A or B?"; DCI.pd_options := ["A"; "B"];
       DCI.pd_author := "u0"; DCI.pd_duration := None |}
    1700000000000 1700000000000 1700000000000
    1700000000000 "z1y2x3w4v" 1700000000000.

Definition poll_AB_id : string := "poll_1700000000000".

Definition poll_ledger : DCI.t := ledger_run [poll_AB] DCI.new.

(** The [votes] counters of a poll, option by option. *)
Definition vote_counts (pollId : string) (self : DCI.t) : option (list Z) :=
  (fun p => DCI.votes <$> DCI.options p) <$> DCI.polls self !! pollId.

(** ** Invariants *)

(** The counter of an option agrees with its list of voters, and nobody
    is listed twice. *)
Definition option_consistent (o : DCI.PollOption) : Prop :=
  DCI.votes o = Z.of_nat (length (DCI.voters o)) ∧ NoDup (DCI.voters o).

Definition polls_consistent (self : DCI.t) : Prop :=
  map_Forall (fun _ p => Forall option_consistent (DCI.options p)) (DCI.polls self).

(** What the options of a poll look like while a single user votes on it:
    untouched, or holding the vote of that user and nothing else. *)
Definition option_fresh (o : DCI.PollOption) : Prop :=
  DCI.votes o = 0 ∧ DCI.voters o = [].

Definition option_solo (userId : string) (o : DCI.PollOption) : Prop :=
  DCI.votes o = 1 ∧ DCI.voters o = [userId].

(** The conditions under which [voteOnPoll] is specified to fail. *)
Definition vote_rejected (pollId : string) (optionIndex : Z) (self : DCI.t) : Prop :=
  match DCI.polls self !! pollId with
  | None => True
  | Some p => DCI.active p = false ∨ Z.of_nat (length (DCI.options p)) ≤ optionIndex
  end.

(** The state of the poll [pollId] while [u] is its only voter; [B] says
    whether a vote has been accepted. *)
Definition single_voter (u pollId : string) (B : Prop) (self : DCI.t) : Prop :=
  ∃ p, DCI.polls self !! pollId = Some p
       ∧ DCI.active p = true
       ∧ Forall (fun o => option_fresh o ∨ option_solo u o) (DCI.options p)
       ∧ (options_holding u p ≤ 1)%nat
       ∧ (B → vote_sum p = 1).

(** A coordination state with one event and one consensus item, both
    with the defaults of their constructors. *)
Definition demo_event_id : string := "event_1700000000000".
Definition demo_item_id : string := "consensus_1700000000000".

Definition demo_coordination : CC.t :=
  coordination_run
    [ScheduleEvent
       {| CC.ed_title := "Weekly Spiral Session";
          CC.ed_description := "Community meditation";
          CC.ed_scheduledFor := 1700086400000;
          CC.ed_organizer := "Dana";
          CC.ed_duration := None; CC.ed_type := Some "meditation";
          CC.ed_location := None |}
       1700000000000 1700000000000;
     CreateConsensusItem
       {| CC.id_title := "Community Guidelines v2.0";
          CC.id_description := "Updated guidelines";
          CC.id_proposedBy := "Eve";
          CC.id_votingPeriod := Some 432000000;
          CC.id_consensusThreshold := None |}
       1700000000000 1700000000000 1700000000000]
    CC.new.

(** The status of the first item of a given id, as [find] selects it. *)
Definition status_of (itemId : string) (self : CC.t) : option CC.ItemStatus :=
  (fun r => CC.item_status r.2)
    <$> list_find (fun it => CC.item_id it = itemId) (CC.consensusItems self).

(** ** Further notions for the ledger *)

(** The calls that append to the global list of inputs. *)
Definition adds_input (c : ledger_call) : bool :=
  match c with
  | AddInput _ _ _ _ _ | CreatePoll _ _ _ _ _ _ _ _ => true
  | VoteOnPoll _ _ _ => false
  end.

(** The keys [initializeChannels] sets. *)
Definition channel_keys : gset string :=
  {["sanctuary"; "tower-of-code"; "temple-of-flame"; "the-keep"]}.

(** Every channel holds the inputs of the global list that name it, in
    the order of the global list. *)
Definition ledger_partitioned (self : DCI.t) : Prop :=
  ∀ k c, DCI.channels self !! k = Some c →
         DCI.channel_inputs c = filter (fun i => DCI.channelId i = k) (DCI.inputs self).

(** No poll has been closed. *)
Definition polls_active (self : DCI.t) : Prop :=
  map_Forall (fun _ p => DCI.active p = true) (DCI.polls self).

(** Calls on two known channels and an unknown one, around a poll. *)
Definition mixed_calls : list ledger_call :=
  [AddInput "sanctuary"
     {| DCI.in_content := Some "a"; DCI.in_author := None; DCI.in_type := None |}
     1700000000001 "r1r1r1r1r" 1700000000001;
   poll_AB;
   AddInput "nowhere"
     {| DCI.in_content := Some "b"; DCI.in_author := None; DCI.in_type := None |}
     1700000000002 "r2r2r2r2r" 1700000000002;
   VoteOnPoll poll_AB_id 1 "u1";
   AddInput "sanctuary"
     {| DCI.in_content := Some "c"; DCI.in_author := None; DCI.in_type := None |}
     1700000000003 "r3r3r3r3r" 1700000000003].

(** What a vote of [u] leaves alone in an option: its text and the votes
    of everybody else, in their order. *)
Definition same_for_others (u : string) (o o' : DCI.PollOption) : Prop :=
  DCI.text o' = DCI.text o
  ∧ filter (fun v => v ≠ u) (DCI.voters o') = filter (fun v => v ≠ u) (DCI.voters o).

(** ** The remaining queries of the coordination class *)

(** [arr.sort((a, b) => key(a) - key(b))] for an integral [key]. The sort
    of the language is stable, which determines its result: ascending
    keys, elements of equal key in the order they had. Insertion from the
    right, each element placed before the first one that is not smaller,
    computes it. *)
Fixpoint insert_by {A : Type} (key : A → Z) (x : A) (l : list A) : list A :=
  match l with
  | [] => [x]
  | y :: l' => if key x <=? key y then x :: y :: l' else y :: insert_by key x l'
  end.

Definition sort_by {A : Type} (key : A → Z) (l : list A) : list A :=
  foldr (insert_by key) [] l.

(** [arr.slice(0, end)]: a negative [end] counts from the end of the
    array, and the end is clamped to the array. *)
Definition slice_to {A : Type} (end_ : Z) (arr : list A) : list A :=
  let len := Z.of_nat (length arr) in
  let final := if end_ <? 0 then Z.max (len + end_) 0 else Z.min end_ len in
  take (Z.to_nat final) arr.

(** [CommunityCoordination.getUpcomingEvents]; [limit] is [None] when the
    argument is omitted. [filter] builds a new array, so the sort leaves
    [events] as it is. *)
Definition getUpcomingEvents (limit : option Z) (now : Z) (self : CC.t)
    : list CC.CommunityEvent :=
  slice_to (default 5 limit)
    (sort_by CC.scheduledFor
       (filter (fun event => now < CC.scheduledFor event) (CC.events self))).

(** The ballots of an item, the three arrays one after the other. *)
Definition all_ballots (it : CC.ConsensusItem) : list CC.Ballot :=
  CC.votes_support (CC.item_votes it)
  ++ CC.votes_oppose (CC.item_votes it)
  ++ CC.votes_abstain (CC.item_votes it).

(** The array a vote goes to. *)
Definition ballots_of (vote : CC.Vote) (it : CC.ConsensusItem) : list CC.Ballot :=
  match vote with
  | CC.support => CC.votes_support (CC.item_votes it)
  | CC.oppose => CC.votes_oppose (CC.item_votes it)
  | CC.abstain => CC.votes_abstain (CC.item_votes it)
  end.

(** Nobody has two RSVPs for an event, or two ballots on an item. *)
Definition rsvps_distinct (self : CC.t) : Prop :=
  Forall (fun e => NoDup (CC.memberId <$> CC.attendees e)) (CC.events self).

Definition ballots_distinct (self : CC.t) : Prop :=
  Forall (fun it => NoDup (CC.ballot_memberId <$> all_ballots it))
         (CC.consensusItems self).

(** The demonstration item after two opposing ballots. *)
Definition opposed_coordination : CC.t :=
  coordination_run
    [VoteOnConsensus demo_item_id "m2" CC.oppose 1700000001000 1700000001000;
     VoteOnConsensus demo_item_id "m1" CC.oppose 1700000002000 1700000002000]
    demo_coordination.

(** Two items proposed within one millisecond, then three votes. *)
Definition twin_item_data (title : string) : CC.ItemData :=
  {| CC.id_title := title; CC.id_description := ""; CC.id_proposedBy := "Eve";
     CC.id_votingPeriod := None; CC.id_consensusThreshold := None |}.

Definition twin_calls : list coordination_call :=
  [VoteOnConsensus demo_item_id "m1" CC.oppose 1700000001000 1700000001000;
   VoteOnConsensus demo_item_id "m2" CC.support 1700000002000 1700000002000;
   VoteOnConsensus demo_item_id "m3" CC.support 1700000003000 1700000003000].

Definition twin_coordination : CC.t :=
  coordination_run
    [CreateConsensusItem (twin_item_data "first")
       1700000000000 1700000000000 1700000000000;
     CreateConsensusItem (twin_item_data "second")
       1700000000000 1700000000000 1700000000000]
    CC.new.

(** Four events: one in the past of 1700000000000, two at one later time,
    one in between. *)
Definition event_at (title : string) (scheduledFor : Z) : CC.EventData :=
  {| CC.ed_title := title; CC.ed_description := ""; CC.ed_scheduledFor := scheduledFor;
     CC.ed_organizer := "Dana"; CC.ed_duration := None; CC.ed_type := None;
     CC.ed_location := None |}.

Definition four_events : CC.t :=
  coordination_run
    [ScheduleEvent (event_at "late" 1700000300000) 1699999990001 1699999990001;
     ScheduleEvent (event_at "past" 1699999999000) 1699999990002 1699999990002;
     ScheduleEvent (event_at "late too" 1700000300000) 1699999990003 1699999990003;
     ScheduleEvent (event_at "soon" 1700000100000) 1699999990004 1699999990004]
    CC.new.

(** ** Sequences of calls on the store *)

(** The public methods that write. The answer of [loadState], the one
    assignment of [currentState] outside [saveState], is no call: it is
    [loadState] below, and [store_history] places it among the calls. *)
Inductive store_call : Type :=
| UpdateSpiral (spiralData : obj) (now : Z)
| UpdateCommunityParticipation (participationData : obj) (now : Z)
| UpdatePhase (newPhase : string) (now : Z)
| ImportState (importedState : value).

Definition store_step (self : CP.t) (c : store_call) : CP.t :=
  match c with
  | UpdateSpiral spiralData now => CP.updateSpiral spiralData now self
  | UpdateCommunityParticipation participationData now =>
      CP.updateCommunityParticipation participationData now self
  | UpdatePhase newPhase now => CP.updatePhase newPhase now self
  | ImportState importedState => (CP.importState importedState self).2
  end.

Definition store_run (calls : list store_call) (self : CP.t) : CP.t :=
  foldl store_step self calls.

(** Storage has been handed nothing yet, or the state as it is now. *)
Definition written_through (self : CP.t) : Prop :=
  CP.persisted self = None ∨ CP.persisted self = Some (CP.currentState self).

(** The rest of [loadState], which the constructor starts: it runs in a
    later turn, when [AsyncStorage.getItem] has answered, hence between
    two calls and once. [saved] is the record parsed from the answer;
    [None] stands for an answer that is [null] or empty, and for a read or
    a parse that throws, which the [catch] swallows. The key is written by
    [saveState] alone, which writes objects. The assignment does not go
    through [saveState]: storage is handed nothing. *)
Definition loadState (saved : option obj) (self : CP.t) : CP.t :=
  match saved with
  | Some record =>
      {| CP.currentState := record; CP.persisted := CP.persisted self |}
  | None => self
  end.

(** The calls that get as far as [saveState]: the three updates always,
    [importState] when it accepts the version. *)
Definition reaches_saveState (c : store_call) : bool :=
  match c with
  | ImportState importedState =>
      match get_prop importedState "version" with
      | Some version => strict_eq_string version "1.0"
      | None => false
      end
  | _ => true
  end.

(** The life of a store: the constructor, the calls made before
    [loadState] has its answer, the answer, the calls made after it. *)
Definition store_history (before : list store_call) (saved : option obj)
    (after : list store_call) (t_id t_active : Z) (platform : string) : CP.t :=
  store_run after (loadState saved (store_run before (CP.new t_id t_active platform))).

(** A sync payload that passes the version test and carries no usable
    [community]. *)
Definition hollow_payload : value :=
  VObj (list_to_map [
    ("consciousness",
     VObj (list_to_map [("version", VStr "1.0"); ("community", VNull)]))]).

(** ** The roadmap hook *)

Module Roadmap.

(** [PillarType], with the string each value is at run time. *)
Inductive PillarType : Type := sanctuary | tower | temple | keep.

Definition pillar_string (p : PillarType) : string :=
  match p with
  | sanctuary => "sanctuary"
  | tower => "tower"
  | temple => "temple"
  | keep => "keep"
  end.

Inductive ProjectStatus : Type := proposed | active | completed | archived.

Inductive MilestoneStatus : Type := pending | in_progress | milestone_completed.

Record Milestone : Type := {
  milestone_id : string;
  milestone_title : string;
  milestone_description : string;
  dueDate : option string;
  milestone_status : MilestoneStatus;
  milestone_createdAt : string
}.

Record Project : Type := {
  id : string;
  title : string;
  description : string;
  pillar : PillarType;
  lead : string;
  status : ProjectStatus;
  milestones : list Milestone;
  createdAt : string;
  updatedAt : string
}.

Record Pillar : Type := {
  pillar_id : PillarType;
  name : string;
  pillar_description : string;
  keeper : string;
  icon : string;
  color : string
}.

Record RoadmapState : Type := {
  pillars : list Pillar;
  projects : list Project;
  isLoading : bool;
  error : option string
}.

#[global] Instance MilestoneStatus_eq_dec : EqDecision MilestoneStatus.
Proof. solve_decision. Defined.

Definition getProjectsByPillar (pillarId : string) (state : RoadmapState) : list Project :=
  filter (fun project => pillar_string (pillar project) = pillarId) (projects state).

(** [find]: the first match, [None] for [undefined]. *)
Definition getProject (projectId : string) (state : RoadmapState) : option Project :=
  snd <$> list_find (fun project => id project = projectId) (projects state).

Definition getPillar (pillarId : string) (state : RoadmapState) : option Pillar :=
  snd <$> list_find (fun p => pillar_string (pillar_id p) = pillarId) (pillars state).

Definition totalMilestones (state : RoadmapState) : nat :=
  foldl (fun total project => (total + length (milestones project))%nat) 0%nat
        (projects state).

Definition completedMilestones (state : RoadmapState) : nat :=
  foldl (fun total project =>
           (total + length (filter (fun m => milestone_status m = milestone_completed)
                                   (milestones project)))%nat)
        0%nat (projects state).

Definition calculateProgress (state : RoadmapState) : float :=
  if decide (totalMilestones state = 0%nat) then 0%float
  else (num_of_nat (completedMilestones state) / num_of_nat (totalMilestones state))%float.

End Roadmap.

(** ** The balanced ternary codes of the sigil reader *)

From Stdlib Require Import Ascii.

Module Ternary.

(** A JS string is modelled by a string of single-byte characters; every
    character the functions below tell apart is one. Numbers are the
    integers where binary64 computes on them without rounding. In
    [decimalToBalancedTernaryRaw] that is every integral argument below
    2^53: the remainder, the division followed by [Math.floor] and the
    increment are exact there. In [balancedTernaryToDecimalRaw] that is
    every code of at most 34 characters: the products and the running
    sums stay below 3^34 / 2 < 2^53 and the power that is used stays at
    most 3^33; from the 35th character on, the power 3^34 is rounded (see
    [balancedTernaryToDecimalRaw_binary64] below) and the integers no
    longer tell what the code returns. *)

Definition CODE_LENGTH : nat := 5.
Definition MIN_VALUE : Z := -121.
Definition MAX_VALUE : Z := 121.

(** [DIGIT_MAP.get(c)] *)
Definition DIGIT_MAP (c : Ascii.ascii) : option Z :=
  if decide (c = "T"%char) then Some (-1)
  else if decide (c = "0"%char) then Some 0
  else if decide (c = "1"%char) then Some 1
  else None.

(** The [while] loop of [decimalToBalancedTernaryRaw], one iteration per
    unit of [fuel]; [None] when the fuel ends before the loop does. [%] is
    the truncating remainder. *)
Fixpoint digits_loop (fuel : nat) (num : Z) (digits : list Ascii.ascii)
    : option (list Ascii.ascii) :=
  if decide (num = 0) then Some digits
  else
    match fuel with
    | O => None
    | S fuel' =>
        let remainder := Z.rem (Z.rem num 3 + 3) 3 in
        if decide (remainder = 2)
        then digits_loop fuel' (num / 3 + 1) ("T"%char :: digits)
        else digits_loop fuel' (num / 3)
               ((if decide (remainder = 0) then "0"%char else "1"%char) :: digits)
    end.

(** [s.padStart(n, '0')] *)
Definition padStart (n : nat) (s : list Ascii.ascii) : list Ascii.ascii :=
  replicate (n - length s) "0"%char ++ s.

(** [decimalToBalancedTernaryRaw]; the fuel, the absolute value of the
    argument, is shown below to be enough. *)
Definition decimalToBalancedTernaryRaw (decimal : Z) : option string :=
  if decide (decimal = 0) then Some "00000"
  else
    (fun digits => String.string_of_list_ascii (padStart CODE_LENGTH digits))
      <$> digits_loop (Z.abs_nat decimal) decimal [].

(** [balancedTernaryToDecimalRaw] on a code of at most 34 characters:
    from the last character to the first, with the running [power]; a
    character that is no digit counts 0. *)
Definition balancedTernaryToDecimalRaw (code : string) : Z :=
  (foldl (fun '(result, power) c =>
            (result + default 0 (DIGIT_MAP c) * power, power * 3))
         (0, 1)
         (reverse (String.list_ascii_of_string code))).1.

Record ValidationResult : Type := {
  isValid : bool;
  error : option string;
  warning : option string
}.

(** [/^[T01]{5}$/.test(input)] *)
Definition VALID_PATTERN (input : string) : bool :=
  bool_decide (String.length input = 5%nat
               ∧ Forall (fun c => is_Some (DIGIT_MAP c)) (String.list_ascii_of_string input)).

Definition join_chars (cs : list Ascii.ascii) : string :=
  foldr (fun c acc => if decide (acc = "") then String c "" else String c (", " +:+ acc))
        "" cs.

Definition validateTernaryInput (input : string) : ValidationResult :=
  if decide (input = "") then
    {| isValid := false; error := Some "Input cannot be empty"; warning := None |}
  else if decide (String.length input ≠ CODE_LENGTH) then
    {| isValid := false;
       error := Some ("Input must be exactly " +:+ show_nat CODE_LENGTH
                      +:+ " characters long");
       warning := None |}
  else if negb (VALID_PATTERN input) then
    let invalidChars :=
      filter (fun c => DIGIT_MAP c = None) (String.list_ascii_of_string input) in
    {| isValid := false;
       error := Some ("Invalid characters: " +:+ join_chars invalidChars
                      +:+ ". Use only T, 0, 1");
       warning := None |}
  else
    let decimal := balancedTernaryToDecimalRaw input in
    if decide (decimal < MIN_VALUE ∨ MAX_VALUE < decimal) then
      {| isValid := true; error := None;
         warning := Some ("Decimal value " +:+ show_Z decimal
                          +:+ " is outside typical sigil range") |}
    else {| isValid := true; error := None; warning := None |}.

(** The characters that are digits. *)
Definition digit_char (c : Ascii.ascii) : Prop := is_Some (DIGIT_MAP c).

(** The value of a sequence of digits, the first one the most
    significant. *)
Fixpoint digits_value (digits : list Ascii.ascii) : Z :=
  match digits with
  | [] => 0
  | c :: rest => default 0 (DIGIT_MAP c) * 3 ^ Z.of_nat (length rest) + digits_value rest
  end.

End Ternary.

(** The result [{ isValid: true }]. *)
Definition valid_result : Ternary.ValidationResult :=
  {| Ternary.isValid := true; Ternary.error := None; Ternary.warning := None |}.

(** The check of one number of the sigil range: its code has five
    characters and passes the validation without a remark. *)
Definition sigil_code_ok (n : Z) : bool :=
  match Ternary.decimalToBalancedTernaryRaw n with
  | Some code =>
      bool_decide (String.length code = 5%nat)
      && Ternary.VALID_PATTERN code
      && Ternary.isValid (Ternary.validateTernaryInput code)
      && bool_decide (Ternary.error (Ternary.validateTernaryInput code) = None)
      && bool_decide (Ternary.warning (Ternary.validateTernaryInput code) = None)
  | None => false
  end.

(** [balancedTernaryToDecimalRaw] as binary64 computes it, on a code of
    any length: [result] and [power] are JS numbers. *)
Definition balancedTernaryToDecimalRaw_binary64 (code : string) : float :=
  (foldl (fun '(result, power) c =>
            let digitValue := num_of_Z (default 0 (Ternary.DIGIT_MAP c)) in
            (result + digitValue * power, power * 3)%float)
         (0, 1)%float
         (reverse (String.list_ascii_of_string code))).1.

(** (3^34 - 1) / 2, the largest integer whose code has 34 digits. *)
Definition ROUND_TRIP_MAX : Z := 8338590849833284.

(** The code of [ROUND_TRIP_MAX], 34 digits, and the code of the next
    integer, 35 digits. *)
Definition longest_exact_code : string :=
  String.string_of_list_ascii (replicate 34 "1"%char).
Definition shortest_rounded_code : string :=
  String.string_of_list_ascii ("1"%char :: replicate 34 "T"%char).

(** * Properties *)

(** ** Objects and spreads *)

Section Objects.

Implicit Types (a b o : obj) (k : string) (v : value).

Lemma lookup_spread a b k :
  spread a b !! k = match b !! k with Some v => Some v | None => a !! k end.
Proof.
  unfold spread. rewrite lookup_union.
  destruct (b !! k), (a !! k); reflexivity.
Qed.

Lemma lookup_spread_r a b k v : b !! k = Some v → spread a b !! k = Some v.
Proof. intros H. rewrite lookup_spread, H. reflexivity. Qed.

Lemma lookup_spread_l a b k : b !! k = None → spread a b !! k = a !! k.
Proof. intros H. rewrite lookup_spread, H. reflexivity. Qed.



End Objects.

(** ** The consciousness store: import, export, participation *)

Lemma importState_accepts (o : obj) (self : CP.t) :
  o !! "version" = Some (VStr "1.0") →
  CP.importState (VObj o) self = (Returned true, CP.saveState o self).
Proof.
  intros Hv. unfold CP.importState. simpl. unfold prop. rewrite Hv. reflexivity.
Qed.







(** C5. Export then import is a round trip. Whatever the store that
    exports and whatever the store that imports, [importState] of the
    payload [exportState] has just returned gives [true], and every
    property of the exporting state other than [exportedAt] and [version]
    is found with the same value in the importing store (the time stamp
    [lastActive] included: [importState] does not touch it). The two tags
    of the payload are carried over, and the merged record is handed to
    storage. *)
Theorem export_import_roundtrip (original fresh : CP.t) (t_export : Z) :
  ∃ fresh',
    CP.importState (VObj (CP.exportState t_export original)) fresh
      = (Returned true, fresh')
    ∧ (∀ k v, CP.currentState original !! k = Some v →
              k ≠ "exportedAt" → k ≠ "version" →
              CP.currentState fresh' !! k = Some v)
    ∧ CP.currentState fresh' !! "version" = Some (VStr "1.0")
    ∧ CP.currentState fresh' !! "exportedAt" = Some (VNum (num_of_Z t_export))
    ∧ CP.persisted fresh' = Some (CP.currentState fresh').
Proof.
  exists (CP.saveState (CP.exportState t_export original) fresh).
  split.
  { apply importState_accepts. unfold CP.exportState. apply lookup_insert_eq. }
  split; [|split; [|split]]; simpl.
  - intros k v Hk He Hv. apply lookup_spread_r. unfold CP.exportState.
    rewrite !lookup_insert_ne by congruence. exact Hk.
  - apply lookup_spread_r. unfold CP.exportState. apply lookup_insert_eq.
  - apply lookup_spread_r. unfold CP.exportState.
    rewrite lookup_insert_ne by discriminate. apply lookup_insert_eq.
  - reflexivity.
Qed.

(** The round trip on the default state: each of the six fields of a
    freshly constructed store comes back in another one. *)
Example roundtrip_default_state :
  let original := CP.new 1700000000000 1700000000001 "ios" in
  let fresh := CP.new 1800000000000 1800000000001 "android" in
  let fresh' :=
    (CP.importState (VObj (CP.exportState 1700000005000 original)) fresh).2 in
  Forall (fun k => CP.currentState fresh' !! k = CP.currentState original !! k)
    ["userId"; "currentPhase"; "lastActive"; "spiral"; "community"; "preferences"].
Proof. repeat constructor. Qed.

(** C8, as the code has it. When the stored [community] is an object
    whose [contributionCount] is a number, [addCommunityInput] returns the
    id of the new input and leaves a [community] whose [contributionCount]
    is the old one plus one, whose [lastContribution] is the clock reading
    and whose [participationLevel] is ["active"]; its other properties are
    kept. The level is not lowered when it was [observer] or [active]
    before the call. *)
Theorem participation_forced_active
    (sys : CCS.t) (channelId content author : string)
    (t_id : Z) (rnd : string) (t_stamp t_contrib t_active : Z)
    (community : obj) (count : float) :
  CP.currentState (CCS.consciousness sys) !! "community" = Some (VObj community) →
  community !! "contributionCount" = Some (VNum count) →
  ∃ inputId sys' community',
    CCS.addCommunityInput channelId content author
      t_id rnd t_stamp t_contrib t_active sys = (Returned inputId, sys')
    ∧ CP.currentState (CCS.consciousness sys') !! "community" = Some (VObj community')
    ∧ community' !! "contributionCount" = Some (VNum (count + 1)%float)
    ∧ community' !! "lastContribution" = Some (VNum (num_of_Z t_contrib))
    ∧ community' !! "participationLevel" = Some (VStr "active")
    ∧ (∀ k, k ≠ "contributionCount" → k ≠ "lastContribution" →
            k ≠ "participationLevel" → community' !! k = community !! k)
    ∧ (prop community "participationLevel" ≠ VStr "contributor" →
       (participation_rank (prop community "participationLevel")
        ≤ participation_rank (prop community' "participationLevel"))%nat).
Proof.
  intros Hc Hn.
  assert (Hcomm : prop (CP.currentState (CCS.consciousness sys)) "community"
                  = VObj community) by (unfold prop; rewrite Hc; reflexivity).
  assert (Hcount : prop community "contributionCount" = VNum count)
    by (unfold prop; rewrite Hn; reflexivity).
  unfold CCS.addCommunityInput, CP.updateCommunityParticipation, CP.getState.
  destruct (DCI.addInput _ _ _ _ _ _) as [inputId discord'].
  rewrite Hcomm. simpl. rewrite Hcount. simpl.
  eexists _, _, _. split; [reflexivity|].
  split.
  { simpl. apply lookup_spread_r. apply lookup_insert_eq. }
  split; [|split; [|split; [|split]]].
  - apply lookup_spread_r. reflexivity.
  - apply lookup_spread_r. reflexivity.
  - apply lookup_spread_r. reflexivity.
  - intros k H1 H2 H3. apply lookup_spread_l.
    rewrite !lookup_insert_ne by congruence. apply lookup_empty.
  - intros Hlevel. unfold prop at 2.
    rewrite (lookup_spread_r community _ "participationLevel" (VStr "active"))
      by reflexivity.
    simpl. unfold participation_rank.
    destruct (prop community "participationLevel") as [| | | |s|]; try lia.
    repeat case_decide; subst; try lia. congruence.
Qed.

Lemma participation_forced_active_witness :
  ∃ inputId sys' community',
    CCS.addCommunityInput "sanctuary" "hello" "u1"
      1700000000100 "k3j9x0a1b" 1700000000100 1700000000101 1700000000101
      demo_system = (Returned inputId, sys')
    ∧ CP.currentState (CCS.consciousness sys') !! "community" = Some (VObj community')
    ∧ community' !! "contributionCount" = Some (VNum 1)
    ∧ community' !! "participationLevel" = Some (VStr "active").
Proof.
  destruct (participation_forced_active demo_system "sanctuary" "hello" "u1"
              1700000000100 "k3j9x0a1b" 1700000000100 1700000000101 1700000000101
              (list_to_map [
                 ("participationLevel", VStr "observer");
                 ("contributionCount", VNum 0);
                 ("lastContribution", VNull)])
              0%float)
    as (inputId & sys' & community' & Hcall & Hcomm & Hcount & _ & Hlevel & _);
    [reflexivity | reflexivity |].
  exists inputId, sys', community'. auto.
Defined.

(** The claim C8 ends on "the call never lowers the participation level":
    it does, from the top one. A contributor who adds an input is an
    active member afterwards. *)
Lemma participation_lowered_from_contributor :
  ∃ inputId sys',
    CCS.addCommunityInput "sanctuary" "hello" "u1"
      1700000000100 "k3j9x0a1b" 1700000000100 1700000000101 1700000000101
      contributor_system = (Returned inputId, sys')
    ∧ level_of contributor_system = VStr "contributor"
    ∧ level_of sys' = VStr "active"
    ∧ (participation_rank (level_of sys')
       < participation_rank (level_of contributor_system))%nat.
Proof.
  eexists _, _. split; [reflexivity|].
  split; [reflexivity|]. split; [reflexivity|].
  vm_compute. lia.
Qed.

(** ** The ledger: channels and their inputs *)

Section Slices.

Context {A : Type}.
Implicit Types (l : list A) (n : Z).

Lemma slice_from_negative n l :
  0 < n → slice_from (- n) l = drop (length l - Z.to_nat n) l.
Proof.
  intros Hn. unfold slice_from.
  destruct (Z.ltb_spec (- n) 0) as [_|]; [|lia].
  f_equal. lia.
Qed.

Lemma slice_from_zero l : slice_from (- 0) l = l.
Proof. unfold slice_from. simpl. rewrite Z.min_l by lia. reflexivity. Qed.

Lemma reverse_slice_from_negative n l :
  0 < n → reverse (slice_from (- n) l) = take (Z.to_nat n) (reverse l).
Proof. intros Hn. rewrite slice_from_negative, take_reverse by done. done. Qed.

End Slices.

Lemma getChannelInputs_known (self : DCI.t) (channel : string) (c : DCI.Channel)
    (limit : Z) :
  DCI.channels self !! channel = Some c → 0 < limit →
  DCI.getChannelInputs channel (Some limit) self
  = take (Z.to_nat limit) (reverse (DCI.channel_inputs c)).
Proof.
  intros Hc Hl. unfold DCI.getChannelInputs. rewrite Hc. simpl.
  by apply reverse_slice_from_negative.
Qed.

Lemma getChannelInputs_unknown (self : DCI.t) (channel : string) (limit : option Z) :
  DCI.channels self !! channel = None →
  DCI.getChannelInputs channel limit self = [].
Proof. intros Hc. unfold DCI.getChannelInputs. by rewrite Hc. Qed.

(** C7. The asymmetry of [addInput].
    On a known channel, [getChannelInputs] with limit 1 returns exactly
    the input just added, with the returned id, the channel and the
    content given (the empty string when none was). On an unknown channel
    the call still returns its id and the input joins the global list, so
    that [totalInputs] grows by one, but the query on that channel is
    empty whatever the limit, and no query on any channel sees a change. *)
Theorem addInput_channel_asymmetry (self : DCI.t) (channel : string)
    (input : DCI.PartialInput) (t_id : Z) (rnd : string) (t_stamp : Z) :
  let r := DCI.addInput channel input t_id rnd t_stamp self in
  r.1 = "input_" +:+ show_Z t_id +:+ "_" +:+ rnd
  ∧ (is_Some (DCI.channels self !! channel) →
     ∃ i, DCI.getChannelInputs channel (Some 1) r.2 = [i]
          ∧ DCI.id i = r.1
          ∧ DCI.channelId i = channel
          ∧ DCI.content i = or_string (DCI.in_content input) "")
  ∧ (DCI.channels self !! channel = None →
     (∃ i, DCI.inputs r.2 = DCI.inputs self ++ [i] ∧ DCI.id i = r.1)
     ∧ (∀ t_now t_polls,
          DCI.totalInputs (DCI.getCommunityActivity t_now t_polls r.2)
          = S (DCI.totalInputs (DCI.getCommunityActivity t_now t_polls self)))
     ∧ (∀ limit, DCI.getChannelInputs channel limit r.2 = [])
     ∧ (∀ other limit,
          DCI.getChannelInputs other limit r.2
          = DCI.getChannelInputs other limit self)).
Proof.
  simpl. split; [reflexivity|]. split.
  - intros [c Hc]. rewrite Hc. eexists. split.
    { unfold DCI.getChannelInputs. simpl. rewrite lookup_insert_eq. simpl.
      change (-1) with (- 1). rewrite reverse_slice_from_negative by lia.
      rewrite reverse_snoc. reflexivity. }
    repeat split.
  - intros Hc. rewrite Hc. split; [eexists; split; reflexivity|].
    split; [|split].
    + intros. simpl. rewrite length_app. simpl. lia.
    + intros limit. by apply getChannelInputs_unknown.
    + reflexivity.
Qed.

Lemma addInput_channel_asymmetry_witness :
  (∃ i,
     DCI.getChannelInputs "sanctuary" (Some 1)
       (DCI.addInput "sanctuary"
          {| DCI.in_content := Some "hi"; DCI.in_author := Some "u1";
             DCI.in_type := None |}
          1700000000000 "k3j9x0a1b" 1700000000000 DCI.new).2 = [i]
     ∧ DCI.content i = "hi")
  ∧ DCI.getChannelInputs "unknown-channel" (Some 10)
      (DCI.addInput "unknown-channel"
         {| DCI.in_content := Some "hi"; DCI.in_author := Some "u1";
            DCI.in_type := None |}
         1700000000000 "k3j9x0a1b" 1700000000000 DCI.new).2 = [].
Proof.
  split.
  - destruct (addInput_channel_asymmetry DCI.new "sanctuary"
                {| DCI.in_content := Some "hi"; DCI.in_author := Some "u1";
                   DCI.in_type := None |}
                1700000000000 "k3j9x0a1b" 1700000000000)
      as (_ & Hknown & _).
    destruct Hknown as (i & Hq & _ & _ & Hcontent); [eexists; reflexivity|].
    exists i. split; [exact Hq | exact Hcontent].
  - destruct (addInput_channel_asymmetry DCI.new "unknown-channel"
                {| DCI.in_content := Some "hi"; DCI.in_author := Some "u1";
                   DCI.in_type := None |}
                1700000000000 "k3j9x0a1b" 1700000000000)
      as (_ & _ & Hunknown).
    destruct Hunknown as (_ & _ & Hq & _); [reflexivity|].
    apply Hq.
Defined.

(** The claim C9 reads "at most [limit] inputs" for every non-negative
    limit. The code computes [slice(-limit)], and [-0] is [0]: with limit 0
    the slice starts at the first element, and the query returns the whole
    channel, most recent first. *)
Theorem getChannelInputs_limit_zero_returns_all :
  DCI.content <$> DCI.getChannelInputs "sanctuary" (Some 0) two_inputs_ledger
  = ["second"; "first"].
Proof. reflexivity. Qed.

(** With a positive limit the query does what the specification says: it
    returns the [limit] most recent inputs of the channel (all of them
    when there are fewer), the most recent first. *)
Theorem getChannelInputs_positive_limit (self : DCI.t) (channel : string)
    (c : DCI.Channel) (limit : Z) :
  DCI.channels self !! channel = Some c → 0 < limit →
  DCI.getChannelInputs channel (Some limit) self
  = take (Z.to_nat limit) (reverse (DCI.channel_inputs c))
  ∧ (Z.of_nat (length (DCI.getChannelInputs channel (Some limit) self)) ≤ limit)
  ∧ ∀ j i, DCI.getChannelInputs channel (Some limit) self !! j = Some i →
           DCI.channel_inputs c !! (length (DCI.channel_inputs c) - S j)%nat = Some i.
Proof.
  intros Hc Hl. rewrite (getChannelInputs_known _ _ _ _ Hc Hl).
  split; [reflexivity|]. split.
  - rewrite length_take. lia.
  - intros j i Hj. apply lookup_take_Some in Hj as [Hj _].
    apply reverse_lookup_Some in Hj as [Hj _]. exact Hj.
Qed.

Lemma getChannelInputs_positive_limit_witness :
  DCI.content <$> DCI.getChannelInputs "sanctuary" (Some 1) two_inputs_ledger
  = ["second"].
Proof.
  destruct (getChannelInputs_positive_limit two_inputs_ledger "sanctuary"
              (default (DCI.Build_Channel "" "" "" [])
                       (DCI.channels two_inputs_ledger !! "sanctuary")) 1)
    as (Heq & _); [reflexivity | lia |].
  rewrite Heq. reflexivity.
Defined.

(** ** Polls *)

Section Retract.

Implicit Types (o : DCI.PollOption) (u : string).

Lemma retract_vote_absent o u : u ∉ DCI.voters o → DCI.retract_vote u o = o.
Proof.
  intros Hu. unfold DCI.retract_vote.
  destruct (list_find _ _) as [[i x]|] eqn:E; [|reflexivity].
  apply list_find_Some in E as (Hi & -> & _).
  exfalso. apply Hu. eapply list_elem_of_lookup_2, Hi.
Qed.

Lemma retract_vote_consistent o u :
  option_consistent o →
  option_consistent (DCI.retract_vote u o) ∧ u ∉ DCI.voters (DCI.retract_vote u o).
Proof.
  intros [Hv Hnd]. unfold DCI.retract_vote.
  destruct (list_find _ _) as [[i x]|] eqn:E.
  - apply list_find_Some in E as (Hi & -> & _).
    split; [split|]; simpl.
    + rewrite length_delete by eauto.
      apply lookup_lt_Some in Hi. lia.
    + eapply sublist_NoDup; [exact Hnd | apply sublist_delete].
    + rewrite <- (take_drop_middle _ _ _ Hi) in Hnd.
      apply NoDup_app in Hnd as (_ & Hl & Hr).
      apply NoDup_cons in Hr as [Hr _].
      rewrite delete_take_drop. intros [H|H]%elem_of_app; [|contradiction].
      eapply Hl; [exact H | left].
  - split; [split; assumption|].
    apply list_find_None in E. rewrite Forall_forall in E.
    intros H. by apply (E u).
Qed.

Lemma add_vote_consistent o u :
  option_consistent o → u ∉ DCI.voters o → option_consistent (DCI.add_vote u o).
Proof.
  intros [Hv Hnd] Hu. split; simpl.
  - rewrite length_app. simpl. lia.
  - apply NoDup_app. split; [exact Hnd|]. split; [|apply NoDup_singleton].
    intros x Hx ->%list_elem_of_singleton. contradiction.
Qed.

End Retract.

Lemma index_Some {A} (l : list A) (i : Z) (x : A) :
  index l i = Some x ↔ 0 ≤ i ∧ l !! Z.to_nat i = Some x.
Proof.
  unfold index. destruct (Z.ltb_spec i 0); [|intuition lia].
  split; [discriminate | intros [? _]; lia].
Qed.

Lemma index_None_in_range {A} (l : list A) (i : Z) :
  i < Z.of_nat (length l) → index l i = None → i < 0.
Proof.
  unfold index. destruct (Z.ltb_spec i 0); [lia|].
  intros Hi Hn. apply lookup_ge_None in Hn. lia.
Qed.

Lemma voteOnPoll_consistent (pollId : string) (optionIndex : Z) (userId : string)
    (self : DCI.t) :
  polls_consistent self →
  polls_consistent (DCI.voteOnPoll pollId optionIndex userId self).2.
Proof.
  intros Hok. unfold DCI.voteOnPoll.
  destruct (DCI.polls self !! pollId) as [poll|] eqn:Hp; [|exact Hok].
  destruct (negb _ || _); [exact Hok|].
  assert (Hret : Forall (fun o => option_consistent o ∧ userId ∉ DCI.voters o)
                   (DCI.retract_vote userId <$> DCI.options poll)).
  { apply Forall_fmap. eapply Forall_impl; [exact (Hok _ _ Hp)|].
    intros o Ho. by apply retract_vote_consistent. }
  assert (Hret' : Forall option_consistent
                    (DCI.retract_vote userId <$> DCI.options poll)).
  { eapply Forall_impl; [exact Hret | by intros ? []]. }
  destruct (index _ optionIndex) as [o|] eqn:Hi; simpl;
    unfold polls_consistent; simpl; apply map_Forall_insert_2; try exact Hok;
    simpl; try exact Hret'.
  apply Forall_insert; [exact Hret'|].
  apply index_Some in Hi as [_ Hi].
  rewrite Forall_lookup in Hret. destruct (Hret _ _ Hi).
  by apply add_vote_consistent.
Qed.

Lemma addInput_polls (channel : string) (input : DCI.PartialInput)
    (t_id : Z) (rnd : string) (t_stamp : Z) (self : DCI.t) :
  DCI.polls (DCI.addInput channel input t_id rnd t_stamp self).2 = DCI.polls self.
Proof. reflexivity. Qed.

Lemma createPoll_consistent (channel : string) (pollData : DCI.PollData)
    (t_id t_created t_ends t_in : Z) (rnd : string) (t_stamp : Z) (self : DCI.t) :
  polls_consistent self →
  polls_consistent
    (DCI.createPoll channel pollData t_id t_created t_ends t_in rnd t_stamp self).2.
Proof.
  intros Hok. unfold polls_consistent, DCI.createPoll. simpl.
  apply map_Forall_insert_2; [|exact Hok]. simpl.
  apply Forall_fmap, Forall_forall. intros x _. split; simpl; [reflexivity|constructor].
Qed.

Lemma ledger_run_consistent (calls : list ledger_call) (self : DCI.t) :
  polls_consistent self → polls_consistent (ledger_run calls self).
Proof.
  revert self. induction calls as [|c calls IH]; intros self Hok; [exact Hok|].
  apply IH. destruct c; simpl.
  - exact Hok.
  - by apply createPoll_consistent.
  - by apply voteOnPoll_consistent.
Qed.

(** C10. Vote-counter consistency. After any sequence of [addInput],
    [createPoll] and [voteOnPoll] calls on a new ledger, calls that return
    [false] or throw included, every option of every poll has a [votes]
    counter equal to the length of its [voters] list, and no user id
    occurs twice in that list. *)
Theorem vote_counter_consistency (calls : list ledger_call)
    (pollId : string) (p : DCI.Poll) (j : nat) (o : DCI.PollOption) :
  DCI.polls (ledger_run calls DCI.new) !! pollId = Some p →
  DCI.options p !! j = Some o →
  DCI.votes o = Z.of_nat (length (DCI.voters o)) ∧ NoDup (DCI.voters o).
Proof.
  intros Hp Ho.
  assert (Hok : polls_consistent (ledger_run calls DCI.new)).
  { apply ledger_run_consistent. unfold polls_consistent. simpl.
    apply map_Forall_empty. }
  specialize (Hok _ _ Hp). simpl in Hok.
  rewrite Forall_lookup in Hok. exact (Hok _ _ Ho).
Qed.

Lemma vote_counter_consistency_witness :
  ∃ p o,
    DCI.polls
      (ledger_run
         [poll_AB; VoteOnPoll poll_AB_id 0 "u1"; VoteOnPoll poll_AB_id 1 "u1";
          VoteOnPoll poll_AB_id 0 "u2"; VoteOnPoll poll_AB_id (-1) "u2"]
         DCI.new) !! poll_AB_id = Some p
    ∧ DCI.options p !! 1%nat = Some o
    ∧ DCI.voters o = ["u1"]
    ∧ DCI.votes o = Z.of_nat (length (DCI.voters o))
    ∧ NoDup (DCI.voters o).
Proof.
  eexists _, _. split; [reflexivity|]. split; [reflexivity|].
  split; [reflexivity|].
  eapply (vote_counter_consistency
            [poll_AB; VoteOnPoll poll_AB_id 0 "u1"; VoteOnPoll poll_AB_id 1 "u1";
             VoteOnPoll poll_AB_id 0 "u2"; VoteOnPoll poll_AB_id (-1) "u2"]
            poll_AB_id _ 1%nat); reflexivity.
Defined.

(** The claim C3 has [voteOnPoll] return [false] on an option index out
    of range and never throw. The guard of the code has no lower bound:
    with index -1 on an active poll the call throws, and it does so after
    the vote the user had cast was taken back. *)
Theorem voteOnPoll_negative_index_throws :
  let voted := votes_by poll_AB_id "u1" [0] poll_ledger in
  vote_counts poll_AB_id voted = Some [1; 0]
  ∧ (DCI.voteOnPoll poll_AB_id (-1) "u1" voted).1 = TypeError
  ∧ vote_counts poll_AB_id (DCI.voteOnPoll poll_AB_id (-1) "u1" voted).2
    = Some [0; 0].
Proof. repeat split. Qed.

(** The claim C2 on its scenario and where it breaks. A vote for option 0
    and then for option 1 moves the vote; a vote for option 0 and then a
    call with index -1 leaves no vote at all, although a valid vote was
    cast: the sum of the counters is 0, not 1. *)
Theorem vote_lost_after_negative_index :
  vote_counts poll_AB_id (votes_by poll_AB_id "u1" [0] poll_ledger) = Some [1; 0]
  ∧ vote_counts poll_AB_id (votes_by poll_AB_id "u1" [0; 1] poll_ledger)
    = Some [0; 1]
  ∧ vote_counts poll_AB_id (votes_by poll_AB_id "u1" [0; -1] poll_ledger)
    = Some [0; 0]
  ∧ (vote_sum <$> DCI.polls (votes_by poll_AB_id "u1" [0; -1] poll_ledger) !! poll_AB_id)
    = Some 0.
Proof. repeat split. Qed.

(** From index 0 upwards [voteOnPoll] is as the specification has it: it
    returns [false] and changes nothing when the poll is unknown, inactive
    or has no option of that index, and returns [true] in every other
    case. *)
Theorem voteOnPoll_nonnegative_index (pollId : string) (optionIndex : Z)
    (userId : string) (self : DCI.t) :
  0 ≤ optionIndex →
  (vote_rejected pollId optionIndex self →
   DCI.voteOnPoll pollId optionIndex userId self = (Returned false, self))
  ∧ (¬ vote_rejected pollId optionIndex self →
     (DCI.voteOnPoll pollId optionIndex userId self).1 = Returned true).
Proof.
  intros Hi. unfold vote_rejected, DCI.voteOnPoll.
  destruct (DCI.polls self !! pollId) as [p|]; [|split; [reflexivity|tauto]].
  destruct (DCI.active p); simpl.
  - destruct (Z.leb_spec (Z.of_nat (length (DCI.options p))) optionIndex) as [Hge|Hlt].
    + split; [reflexivity|]. intros H. exfalso. apply H. by right.
    + split; [intros [|]; [discriminate|lia]|]. intros _.
      destruct (index _ optionIndex) eqn:E; [reflexivity|].
      apply index_None_in_range in E; [lia|].
      rewrite length_fmap. exact Hlt.
  - split; [reflexivity|]. intros H. exfalso. apply H. by left.
Qed.

Lemma voteOnPoll_nonnegative_index_witness :
  DCI.voteOnPoll poll_AB_id 2 "u1" poll_ledger = (Returned false, poll_ledger)
  ∧ (DCI.voteOnPoll poll_AB_id 1 "u1" poll_ledger).1 = Returned true.
Proof.
  split.
  - apply (voteOnPoll_nonnegative_index poll_AB_id 2 "u1" poll_ledger); [lia|].
    vm_compute. right. discriminate.
  - apply (voteOnPoll_nonnegative_index poll_AB_id 1 "u1" poll_ledger); [lia|].
    vm_compute. intros [H|H]; [discriminate | apply H; reflexivity].
Defined.

(** *** One user voting on one poll *)

Section SingleVoter.

Variable u : string.

Implicit Types (o : DCI.PollOption) (os : list DCI.PollOption).

Let holds o : Prop := u ∈ DCI.voters o.

Lemma retract_fresh_or_solo o :
  option_fresh o ∨ option_solo u o → option_fresh (DCI.retract_vote u o).
Proof.
  destruct o as [txt v vs]. unfold option_fresh, option_solo. simpl.
  intros [[-> ->]|[-> ->]]; unfold DCI.retract_vote; simpl.
  - done.
  - rewrite decide_True by done. done.
Qed.

Lemma fresh_counts os :
  Forall option_fresh os → sum_votes os = 0 ∧ filter holds os = [].
Proof.
  induction 1 as [|o os [Hv Hu] _ [IHs IHf]]; [done|]. simpl. split; [lia|].
  rewrite filter_cons_False; [done|]. unfold holds. rewrite Hu. apply not_elem_of_nil.
Qed.

Lemma voted_counts os i o :
  Forall option_fresh os → os !! i = Some o →
  sum_votes (<[i := DCI.add_vote u o]> os) = 1
  ∧ length (filter holds (<[i := DCI.add_vote u o]> os)) = 1%nat
  ∧ Forall (fun o => option_fresh o ∨ option_solo u o) (<[i := DCI.add_vote u o]> os).
Proof.
  intros Hos. revert i. induction Hos as [|x os [Hv Hu] Hos IH]; intros i Hi; [done|].
  destruct i as [|i]; simpl in *.
  - injection Hi as ->. destruct (fresh_counts os Hos) as [Hs Hf].
    split; [lia|]. split.
    + rewrite filter_cons_True; [by rewrite Hf|].
      unfold holds. simpl. rewrite Hu. apply list_elem_of_here.
    + constructor.
      * right. split; simpl; [lia | by rewrite Hu].
      * eapply Forall_impl; [exact Hos | by left].
  - destruct (IH _ Hi) as (Hs & Hf & Hall).
    split; [lia|]. split.
    + rewrite filter_cons_False; [done|]. unfold holds. rewrite Hu. apply not_elem_of_nil.
    + constructor; [by left | done].
Qed.

Lemma voteOnPoll_single_voter (pollId : string) (B : Prop) (i : Z) (self : DCI.t) :
  0 ≤ i → single_voter u pollId B self →
  ∃ p, DCI.polls self !! pollId = Some p
       ∧ single_voter u pollId (B ∨ i < Z.of_nat (length (DCI.options p)))
           (DCI.voteOnPoll pollId i u self).2
       ∧ ∀ p', DCI.polls (DCI.voteOnPoll pollId i u self).2 !! pollId = Some p' →
               length (DCI.options p') = length (DCI.options p).
Proof.
  intros Hi (p & Hp & Hact & Hall & Hhold & Hsum). exists p. split; [exact Hp|].
  unfold DCI.voteOnPoll. rewrite Hp, Hact. simpl.
  destruct (Z.leb_spec (Z.of_nat (length (DCI.options p))) i) as [Hge|Hlt]; simpl.
  { split; [|by intros p'; rewrite Hp; intros [= <-]].
    exists p. repeat (split; [done|]). intros [HB|]; [auto|lia]. }
  assert (Hfresh : Forall option_fresh (DCI.retract_vote u <$> DCI.options p)).
  { apply Forall_fmap. eapply Forall_impl; [exact Hall|].
    intros o. apply retract_fresh_or_solo. }
  destruct (index _ i) as [o|] eqn:E.
  2:{ apply index_None_in_range in E; [lia|]. by rewrite length_fmap. }
  apply index_Some in E as [_ E]. simpl.
  destruct (voted_counts _ _ _ Hfresh E) as (Hs & Hf & Hall').
  split.
  - eexists. split; [apply lookup_insert_eq|]. simpl.
    split; [exact Hact|]. split; [exact Hall'|].
    split; [unfold options_holding; simpl; fold holds; lia|].
    intros _. exact Hs.
  - intros p'. rewrite lookup_insert_eq. intros [= <-]. simpl.
    by rewrite length_insert, length_fmap.
Qed.

End SingleVoter.

Lemma single_voter_weaken (u pollId : string) (B B' : Prop) (self : DCI.t) :
  (B' → B) → single_voter u pollId B self → single_voter u pollId B' self.
Proof.
  intros HB (p & ? & ? & ? & ? & Hs). exists p. repeat (split; [done|]). auto.
Qed.

Lemma votes_by_single_voter (u pollId : string) (n : nat) (indices : list Z) :
  Forall (fun i => 0 ≤ i) indices →
  ∀ (B : Prop) (self : DCI.t),
    (∀ p, DCI.polls self !! pollId = Some p → length (DCI.options p) = n) →
    single_voter u pollId B self →
    single_voter u pollId (B ∨ Exists (fun i => i < Z.of_nat n) indices)
      (votes_by pollId u indices self).
Proof.
  induction 1 as [|i indices Hi _ IH]; intros B self Hn HS.
  - eapply single_voter_weaken; [|exact HS]. intros [?|H]; [done|]. inversion H.
  - destruct (voteOnPoll_single_voter u pollId B i self Hi HS) as (p & Hp & HS' & Hlen).
    unfold votes_by, ledger_run. simpl.
    eapply single_voter_weaken; [|eapply IH; [|exact HS']].
    + rewrite (Hn _ Hp). intros [HB|H]; [auto|].
      apply Exists_cons in H as [H|H]; auto.
    + intros p' Hp'. rewrite (Hlen _ Hp'). by apply Hn.
Qed.

(** The invariant of the claim C2 for calls whose option index is not
    negative. On an active poll nobody has voted on yet, after any
    sequence of such [voteOnPoll] calls by one user, valid or rejected,
    the user is among the voters of at most one option, and the [votes]
    counters add up to 1 as soon as one call of the sequence named an
    existing option. *)
Theorem single_vote_per_user (self : DCI.t) (pollId userId : string)
    (p : DCI.Poll) (indices : list Z) :
  DCI.polls self !! pollId = Some p →
  DCI.active p = true →
  Forall option_fresh (DCI.options p) →
  Forall (fun i => 0 ≤ i) indices →
  ∃ p', DCI.polls (votes_by pollId userId indices self) !! pollId = Some p'
        ∧ (options_holding userId p' ≤ 1)%nat
        ∧ (Exists (fun i => i < Z.of_nat (length (DCI.options p))) indices →
           vote_sum p' = 1).
Proof.
  intros Hp Hact Hfresh Hidx.
  destruct (votes_by_single_voter userId pollId (length (DCI.options p)) indices
              Hidx False self) as (p' & Hp' & _ & _ & Hhold & Hsum).
  - intros q. rewrite Hp. by intros [= <-].
  - exists p. split; [done|]. split; [done|]. split.
    + eapply Forall_impl; [exact Hfresh | by left].
    + split; [|done]. unfold options_holding.
      destruct (fresh_counts userId _ Hfresh) as [_ ->]. simpl. lia.
  - exists p'. split; [done|]. split; [done|]. intros H. apply Hsum. by right.
Qed.

Lemma single_vote_per_user_witness :
  ∃ p', DCI.polls (votes_by poll_AB_id "u1" [0; 5; 1] poll_ledger) !! poll_AB_id
        = Some p'
        ∧ (options_holding "u1" p' ≤ 1)%nat
        ∧ vote_sum p' = 1.
Proof.
  destruct (single_vote_per_user poll_ledger poll_AB_id "u1"
              (default (DCI.Build_Poll "" "" "" [] "" 0 0 false)
                       (DCI.polls poll_ledger !! poll_AB_id))
              [0; 5; 1])
    as (p' & Hp' & Hhold & Hsum).
  - reflexivity.
  - reflexivity.
  - repeat constructor.
  - repeat constructor; lia.
  - exists p'. split; [exact Hp'|]. split; [exact Hhold|].
    apply Hsum. left. vm_compute. reflexivity.
Defined.

(** ** Events and RSVPs *)

Section Rsvp.

Variables (eventId member : string).

Let named (e : CC.CommunityEvent) : Prop := CC.event_id e = eventId.
Let of_member (a : CC.Attendee) : Prop := CC.memberId a = member.

Lemma filter_member_after_removal (l : list CC.Attendee) (a : CC.Attendee) :
  CC.memberId a = member →
  filter of_member (filter (fun a => CC.memberId a ≠ member) l ++ [a]) = [a].
Proof.
  intros Ha. rewrite filter_app.
  replace (filter of_member (filter (fun a => CC.memberId a ≠ member) l)) with (@nil CC.Attendee).
  - simpl. rewrite filter_cons_True by exact Ha. reflexivity.
  - symmetry. induction l as [|x l IH]; [reflexivity|].
    destruct (decide (CC.memberId x = member)) as [Hx|Hx].
    + rewrite filter_cons_False by tauto. exact IH.
    + rewrite filter_cons_True by exact Hx.
      rewrite filter_cons_False by exact Hx. exact IH.
Qed.

Lemma list_find_replace_same_id (events : list CC.CommunityEvent) (i : nat)
    (e e' : CC.CommunityEvent) :
  list_find named events = Some (i, e) → CC.event_id e' = CC.event_id e →
  list_find named (<[i := e']> events) = Some (i, e').
Proof.
  intros (Hi & He & Hmin)%list_find_Some Hid. apply list_find_Some.
  split; [|split].
  - apply list_lookup_insert_eq. by eapply lookup_lt_Some.
  - unfold named in *. congruence.
  - intros j y Hj Hlt. rewrite list_lookup_insert_ne in Hj by lia. eauto.
Qed.

Lemma rsvpToEvent_unknown (rsvp : option CC.RsvpStatus) (now : Z) (self : CC.t) :
  list_find named (CC.events self) = None →
  CC.rsvpToEvent eventId member rsvp now self = (false, self).
Proof. intros H. unfold CC.rsvpToEvent. fold named. by rewrite H. Qed.

Lemma rsvpToEvent_known (rsvp : option CC.RsvpStatus) (now : Z) (self : CC.t)
    (i : nat) (e : CC.CommunityEvent) :
  list_find named (CC.events self) = Some (i, e) →
  ∃ e',
    (CC.rsvpToEvent eventId member rsvp now self).1 = true
    ∧ list_find named (CC.events (CC.rsvpToEvent eventId member rsvp now self).2)
      = Some (i, e')
    ∧ filter of_member (CC.attendees e')
      = [{| CC.memberId := member; CC.status := default CC.attending rsvp;
            CC.rsvpAt := now |}].
Proof.
  intros Hf. unfold CC.rsvpToEvent. fold named. rewrite Hf. simpl.
  eexists. split; [reflexivity|]. split.
  - by apply (list_find_replace_same_id _ _ e).
  - simpl. by apply filter_member_after_removal.
Qed.

Lemma rsvps_by_known (calls : list (option CC.RsvpStatus * Z)) (self : CC.t)
    (i : nat) (e : CC.CommunityEvent) :
  list_find named (CC.events self) = Some (i, e) →
  ∃ e', list_find named (CC.events (rsvps_by eventId member calls self)) = Some (i, e').
Proof.
  revert self e. induction calls as [|[rsvp now] calls IH]; intros self e Hf.
  - exists e. exact Hf.
  - destruct (rsvpToEvent_known rsvp now self i e Hf) as (e' & _ & Hf' & _).
    exact (IH _ _ Hf').
Qed.

End Rsvp.

(** C6. RSVP replace semantics. [rsvpToEvent] returns [false], and
    changes nothing, when no event has the id. When one has, every call
    returns [true], and after any sequence of calls by one member for that
    event, ending with a call of status [rsvp] (attending when omitted)
    at time [now], the attendees of the event hold exactly one record of
    the member: the one of that last call. *)
Theorem rsvp_replace_semantics :
  (∀ (eventId member : string) (rsvp : option CC.RsvpStatus) (now : Z) (self : CC.t),
      list_find (fun e => CC.event_id e = eventId) (CC.events self) = None →
      CC.rsvpToEvent eventId member rsvp now self = (false, self))
  ∧ (∀ (eventId member : string) (rsvp : option CC.RsvpStatus) (now : Z) (self : CC.t),
      is_Some (list_find (fun e => CC.event_id e = eventId) (CC.events self)) →
      (CC.rsvpToEvent eventId member rsvp now self).1 = true)
  ∧ (∀ (eventId member : string) (earlier : list (option CC.RsvpStatus * Z))
       (rsvp : option CC.RsvpStatus) (now : Z) (self : CC.t)
       (i : nat) (e : CC.CommunityEvent),
      list_find (fun e => CC.event_id e = eventId) (CC.events self) = Some (i, e) →
      ∃ e',
        list_find (fun e => CC.event_id e = eventId)
          (CC.events (rsvps_by eventId member (earlier ++ [(rsvp, now)]) self))
        = Some (i, e')
        ∧ filter (fun a => CC.memberId a = member) (CC.attendees e')
          = [{| CC.memberId := member; CC.status := default CC.attending rsvp;
                CC.rsvpAt := now |}]).
Proof.
  split; [|split].
  - intros. by apply rsvpToEvent_unknown.
  - intros eventId member rsvp now self [[i e] Hf].
    by destruct (rsvpToEvent_known eventId member rsvp now self i e Hf) as (? & ? & _).
  - intros eventId member earlier rsvp now self i e Hf.
    destruct (rsvps_by_known eventId member earlier self i e Hf) as (e1 & Hf1).
    destruct (rsvpToEvent_known eventId member rsvp now _ i e1 Hf1) as (e' & _ & Hf' & Hm).
    exists e'. split; [|exact Hm].
    unfold rsvps_by, coordination_run in *.
    rewrite fmap_app, foldl_app. simpl. exact Hf'.
Qed.

Lemma rsvp_replace_semantics_witness :
  CC.rsvpToEvent "event_0" "m1" None 1700000001000 demo_coordination
  = (false, demo_coordination)
  ∧ ∃ i e',
      list_find (fun e => CC.event_id e = demo_event_id)
        (CC.events
           (rsvps_by demo_event_id "m1"
              ([(None, 1700000001000); (Some CC.maybe, 1700000002000)]
               ++ [(Some CC.declined, 1700000003000)])
              demo_coordination))
      = Some (i, e')
      ∧ filter (fun a => CC.memberId a = "m1") (CC.attendees e')
        = [{| CC.memberId := "m1"; CC.status := CC.declined;
              CC.rsvpAt := 1700000003000 |}].
Proof.
  destruct rsvp_replace_semantics as (Hunknown & _ & Hseq).
  split; [apply Hunknown; reflexivity|].
  destruct (Hseq demo_event_id "m1"
              [(None, 1700000001000); (Some CC.maybe, 1700000002000)]
              (Some CC.declined) 1700000003000 demo_coordination 0%nat
              (default (CC.Build_CommunityEvent "" "" "" 0 0 "" [] "" "" 0)
                       (CC.events demo_coordination !! 0%nat)))
    as (e' & Hf & Hm); [reflexivity|].
  exists 0%nat, e'. split; [exact Hf | exact Hm].
Defined.

(** ** Consensus items *)

Section Consensus.

Implicit Types (it : CC.ConsensusItem) (self : CC.t).

Lemma totalVotes_sum it :
  CC.totalVotes it
  = (length (CC.votes_support (CC.item_votes it))
     + length (CC.votes_oppose (CC.item_votes it))
     + length (CC.votes_abstain (CC.item_votes it)))%nat.
Proof. reflexivity. Qed.

Lemma checkConsensus_votes now it :
  CC.item_votes (CC.checkConsensus now it) = CC.item_votes it.
Proof.
  unfold CC.checkConsensus.
  repeat match goal with |- context [if ?b then _ else _] => destruct b end;
    reflexivity.
Qed.

Lemma checkConsensus_frame now it :
  CC.item_id (CC.checkConsensus now it) = CC.item_id it
  ∧ CC.consensusThreshold (CC.checkConsensus now it) = CC.consensusThreshold it
  ∧ CC.votingEnds (CC.checkConsensus now it) = CC.votingEnds it.
Proof.
  unfold CC.checkConsensus.
  repeat match goal with |- context [if ?b then _ else _] => destruct b end;
    repeat split.
Qed.

(** [checkConsensus] computes the resolution rule. *)
Lemma checkConsensus_status now it :
  CC.item_status it = CC.voting →
  CC.item_status (CC.checkConsensus now it)
  = resolution_rule (CC.supportVotes it) (CC.totalVotes it)
      (CC.consensusThreshold it) now (CC.votingEnds it) CC.voting.
Proof.
  intros Hs. unfold CC.checkConsensus, resolution_rule.
  destruct (Nat.ltb_spec 0 (CC.totalVotes it)) as [Hpos|Hzero].
  - rewrite decide_False by lia.
    destruct (_ <=? _)%float; [reflexivity|].
    destruct (Z.ltb_spec (CC.votingEnds it) now).
    + by rewrite decide_True.
    + by rewrite decide_False by lia.
  - by rewrite decide_True by lia.
Qed.

Lemma list_find_item_replace (P : CC.ConsensusItem → Prop) `{!∀ x, Decision (P x)}
    (items : list CC.ConsensusItem) (i j : nat) (it x x' : CC.ConsensusItem) :
  list_find P items = Some (i, it) →
  items !! j = Some x → (P x' → P x) → j ≠ i →
  list_find P (<[j := x']> items) = Some (i, it).
Proof.
  intros (Hi & HP & Hmin)%list_find_Some Hj Himp Hne. apply list_find_Some.
  split; [by rewrite list_lookup_insert_ne|]. split; [exact HP|].
  intros k y Hk Hlt Hy. destruct (decide (k = j)) as [->|Hkj].
  - rewrite list_lookup_insert_eq in Hk by (by eapply lookup_lt_Some).
    injection Hk as <-. eapply Hmin; eauto.
  - rewrite list_lookup_insert_ne in Hk by done. eapply Hmin; eauto.
Qed.

Lemma voteOnConsensus_accepted itemId member vote t_ballot t_check self i it :
  list_find (fun x => CC.item_id x = itemId) (CC.consensusItems self) = Some (i, it) →
  CC.item_status it = CC.voting →
  CC.voteOnConsensus itemId member vote t_ballot t_check self
  = (true,
     {| CC.events := CC.events self;
        CC.consensusItems :=
          <[i := CC.checkConsensus t_check (CC.record_ballot member vote t_ballot it)]>
            (CC.consensusItems self) |}).
Proof.
  intros Hf Hs. unfold CC.voteOnConsensus. rewrite Hf.
  rewrite decide_False by (rewrite Hs; tauto). reflexivity.
Qed.

Lemma voteOnConsensus_rejected itemId member vote t_ballot t_check self i it :
  list_find (fun x => CC.item_id x = itemId) (CC.consensusItems self) = Some (i, it) →
  CC.item_status it ≠ CC.voting →
  CC.voteOnConsensus itemId member vote t_ballot t_check self = (false, self).
Proof.
  intros Hf Hs. unfold CC.voteOnConsensus. rewrite Hf.
  by rewrite decide_True.
Qed.

(** A resolved item keeps its place and its content through any call. *)
Lemma step_keeps_resolved (c : coordination_call) self itemId i it :
  list_find (fun x => CC.item_id x = itemId) (CC.consensusItems self) = Some (i, it) →
  CC.item_status it ≠ CC.voting →
  list_find (fun x => CC.item_id x = itemId)
    (CC.consensusItems (coordination_step self c)) = Some (i, it).
Proof.
  intros Hf Hs. destruct c as [| eventId m rsvp now | | itemId' m v t1 t2]; simpl.
  - exact Hf.
  - unfold CC.rsvpToEvent. destruct (list_find _ (CC.events self)) as [[j e]|]; exact Hf.
  - by apply list_find_app_l.
  - unfold CC.voteOnConsensus.
    destruct (list_find (fun x => CC.item_id x = itemId') (CC.consensusItems self))
      as [[j x]|] eqn:Hj; [|exact Hf].
    destruct (decide (CC.item_status x ≠ CC.voting)) as [|Hx]; [exact Hf|]. simpl.
    pose proof Hj as (Hjx & _ & _)%list_find_Some.
    pose proof Hf as (Hit & _ & _)%list_find_Some.
    eapply list_find_item_replace; [exact Hf | exact Hjx | |].
    + destruct (checkConsensus_frame t2 (CC.record_ballot m v t1 x)) as [-> _].
      simpl. done.
    + intros ->. rewrite Hit in Hjx. injection Hjx as <-. contradiction.
Qed.

Lemma run_keeps_resolved (calls : list coordination_call) self itemId i it :
  list_find (fun x => CC.item_id x = itemId) (CC.consensusItems self) = Some (i, it) →
  CC.item_status it ≠ CC.voting →
  list_find (fun x => CC.item_id x = itemId)
    (CC.consensusItems (coordination_run calls self)) = Some (i, it).
Proof.
  revert self. induction calls as [|c calls IH]; intros self Hf Hs; [exact Hf|].
  apply IH; [|exact Hs]. by apply step_keeps_resolved.
Qed.

Lemma step_keeps_resolved_at (c : coordination_call) self i it :
  CC.consensusItems self !! i = Some it →
  CC.item_status it ≠ CC.voting →
  CC.consensusItems (coordination_step self c) !! i = Some it.
Proof.
  intros Hi Hs. destruct c as [| eventId m rsvp now | | itemId' m v t1 t2]; simpl.
  - exact Hi.
  - unfold CC.rsvpToEvent. destruct (list_find _ (CC.events self)) as [[j e]|]; exact Hi.
  - by apply lookup_app_l_Some.
  - unfold CC.voteOnConsensus.
    destruct (list_find _ (CC.consensusItems self)) as [[j x]|] eqn:Hj; [|exact Hi].
    destruct (decide (CC.item_status x ≠ CC.voting)) as [|Hx]; [exact Hi|]. simpl.
    apply list_find_Some in Hj as (Hjx & _ & _).
    rewrite list_lookup_insert_ne; [exact Hi|].
    intros ->. rewrite Hi in Hjx. injection Hjx as <-. contradiction.
Qed.

Lemma run_keeps_resolved_at (calls : list coordination_call) self i it :
  CC.consensusItems self !! i = Some it →
  CC.item_status it ≠ CC.voting →
  CC.consensusItems (coordination_run calls self) !! i = Some it.
Proof.
  revert self. induction calls as [|c calls IH]; intros self Hi Hs; [exact Hi|].
  apply IH; [|exact Hs]. by apply step_keeps_resolved_at.
Qed.

End Consensus.

(** C1. Consensus resolution.
    (1) [checkConsensus] on an item in status [voting] computes the rule of
    the specification: unchanged without ballots, [approved] when the
    support ratio reaches the threshold, else [failed] past [votingEnds],
    else still [voting].
    (2) An accepted [voteOnConsensus] call (the item is found and is in
    status [voting]) returns [true] and replaces the item, in place, by one
    that holds the recorded ballot and whose status is given by that rule
    on the ballots as they stand after the recording.
    (3) A call that finds an item in status [approved] or [failed] returns
    [false] and changes nothing.
    (4) Through any sequence of calls of the class, an item in status
    [approved] or [failed] stays as it is, and
    (5) every later [voteOnConsensus] call that finds it returns [false]. *)
Theorem consensus_resolution :
  (∀ (now : Z) (it : CC.ConsensusItem),
      CC.item_status it = CC.voting →
      CC.item_status (CC.checkConsensus now it)
      = resolution_rule
          (length (CC.votes_support (CC.item_votes it)))
          (length (CC.votes_support (CC.item_votes it))
           + length (CC.votes_oppose (CC.item_votes it))
           + length (CC.votes_abstain (CC.item_votes it)))
          (CC.consensusThreshold it) now (CC.votingEnds it) CC.voting)
  ∧ (∀ (itemId member : string) (vote : CC.Vote) (t_ballot t_check : Z)
       (self : CC.t) (i : nat) (it : CC.ConsensusItem),
      list_find (fun x => CC.item_id x = itemId) (CC.consensusItems self)
      = Some (i, it) →
      CC.item_status it = CC.voting →
      ∃ it',
        CC.voteOnConsensus itemId member vote t_ballot t_check self
        = (true,
           {| CC.events := CC.events self;
              CC.consensusItems := <[i := it']> (CC.consensusItems self) |})
        ∧ CC.item_id it' = CC.item_id it
        ∧ CC.item_votes it'
          = CC.item_votes (CC.record_ballot member vote t_ballot it)
        ∧ CC.item_status it'
          = resolution_rule
              (length (CC.votes_support (CC.item_votes it')))
              (length (CC.votes_support (CC.item_votes it'))
               + length (CC.votes_oppose (CC.item_votes it'))
               + length (CC.votes_abstain (CC.item_votes it')))
              (CC.consensusThreshold it) t_check (CC.votingEnds it) CC.voting)
  ∧ (∀ (itemId member : string) (vote : CC.Vote) (t_ballot t_check : Z)
       (self : CC.t) (i : nat) (it : CC.ConsensusItem),
      list_find (fun x => CC.item_id x = itemId) (CC.consensusItems self)
      = Some (i, it) →
      CC.item_status it ≠ CC.voting →
      CC.voteOnConsensus itemId member vote t_ballot t_check self = (false, self))
  ∧ (∀ (calls : list coordination_call) (self : CC.t) (i : nat)
       (it : CC.ConsensusItem),
      CC.consensusItems self !! i = Some it →
      CC.item_status it ≠ CC.voting →
      CC.consensusItems (coordination_run calls self) !! i = Some it)
  ∧ (∀ (calls : list coordination_call) (itemId member : string) (vote : CC.Vote)
       (t_ballot t_check : Z) (self : CC.t) (i : nat) (it : CC.ConsensusItem),
      list_find (fun x => CC.item_id x = itemId) (CC.consensusItems self)
      = Some (i, it) →
      CC.item_status it ≠ CC.voting →
      CC.voteOnConsensus itemId member vote t_ballot t_check
        (coordination_run calls self)
      = (false, coordination_run calls self)).
Proof.
  split; [|split; [|split; [|split]]].
  - intros now it Hs. rewrite (checkConsensus_status now it Hs).
    by rewrite totalVotes_sum.
  - intros itemId member vote t_ballot t_check self i it Hf Hs.
    eexists. split; [by apply voteOnConsensus_accepted|].
    split; [exact (proj1 (checkConsensus_frame _ _))|].
    split; [apply checkConsensus_votes|].
    rewrite checkConsensus_status by exact Hs.
    rewrite totalVotes_sum, checkConsensus_votes. reflexivity.
  - intros. by eapply voteOnConsensus_rejected.
  - intros. by apply run_keeps_resolved_at.
  - intros calls itemId member vote t_ballot t_check self i it Hf Hs.
    eapply voteOnConsensus_rejected; [|exact Hs].
    by apply run_keeps_resolved.
Qed.

Lemma consensus_resolution_witness :
  ∃ s1 it',
    CC.voteOnConsensus demo_item_id "m1" CC.support
      1700000001000 1700000001000 demo_coordination = (true, s1)
    ∧ CC.consensusItems s1 !! 0%nat = Some it'
    ∧ CC.item_status it' = CC.approved
    ∧ CC.voteOnConsensus demo_item_id "m2" CC.oppose
        1700000002000 1700000002000
        (coordination_run
           [RsvpToEvent demo_event_id "m2" None 1700000001500;
            VoteOnConsensus demo_item_id "m3" CC.oppose 1700000001600 1700000001600]
           s1)
      = (false,
         coordination_run
           [RsvpToEvent demo_event_id "m2" None 1700000001500;
            VoteOnConsensus demo_item_id "m3" CC.oppose 1700000001600 1700000001600]
           s1).
Proof.
  destruct consensus_resolution as (_ & Hacc & _ & _ & Hlater).
  destruct (Hacc demo_item_id "m1" CC.support 1700000001000 1700000001000
              demo_coordination 0%nat
              (default (CC.Build_ConsensusItem "" "" "" "" 0 0
                          (CC.Build_Votes [] [] []) CC.failed 0)
                       (CC.consensusItems demo_coordination !! 0%nat)))
    as (it' & Hcall & Hid & Hvotes & Hstatus); [reflexivity | reflexivity |].
  assert (Happroved : CC.item_status it' = CC.approved)
    by (rewrite Hstatus, Hvotes; reflexivity).
  eexists _, it'. split; [exact Hcall|]. split; [reflexivity|].
  split; [exact Happroved|].
  apply (Hlater _ demo_item_id "m2" CC.oppose _ _ _ 0%nat it').
  - apply list_find_Some. split; [reflexivity|]. split; [exact Hid|].
    intros j y _ Hlt. lia.
  - rewrite Happroved. discriminate.
Defined.

(** The three outcomes of the rule on the demonstration item (threshold
    0.67, five days of voting). A first ballot in support approves it, and
    the later calls are turned down. Two ballots of four in support leave
    it open. One opposing ballot cast after the deadline fails it. *)
Example resolution_outcomes :
  status_of demo_item_id
    (coordination_run
       [VoteOnConsensus demo_item_id "m1" CC.support 1700000001000 1700000001000;
        VoteOnConsensus demo_item_id "m2" CC.oppose 1700000002000 1700000002000;
        VoteOnConsensus demo_item_id "m3" CC.support 1700000003000 1700000003000]
       demo_coordination) = Some CC.approved
  ∧ status_of demo_item_id
      (coordination_run
         [VoteOnConsensus demo_item_id "m2" CC.oppose 1700000002000 1700000002000;
          VoteOnConsensus demo_item_id "m1" CC.support 1700000001000 1700000001000;
          VoteOnConsensus demo_item_id "m3" CC.abstain 1700000003000 1700000003000;
          VoteOnConsensus demo_item_id "m4" CC.support 1700000003000 1700000003000]
         demo_coordination) = Some CC.voting
  ∧ status_of demo_item_id
      (coordination_run
         [VoteOnConsensus demo_item_id "m2" CC.oppose 1700432000001 1700432000001]
         demo_coordination) = Some CC.failed.
Proof. repeat split. Qed.

(** * Further properties of the code *)

#[local] Set Warnings "-clear-no-such-hyp".

(** ** The ledger as a whole *)

Section LedgerFrame.

Implicit Types (self : DCI.t) (c : ledger_call).

Lemma voteOnPoll_inputs pollId optionIndex userId self :
  DCI.inputs (DCI.voteOnPoll pollId optionIndex userId self).2 = DCI.inputs self
  ∧ DCI.channels (DCI.voteOnPoll pollId optionIndex userId self).2 = DCI.channels self.
Proof.
  unfold DCI.voteOnPoll.
  destruct (DCI.polls self !! pollId) as [p|]; [|done].
  destruct (negb _ || _); [done|].
  by destruct (index _ _).
Qed.

Lemma addInput_channels_dom channel input t_id rnd t_stamp self :
  dom (DCI.channels (DCI.addInput channel input t_id rnd t_stamp self).2)
  = dom (DCI.channels self).
Proof.
  simpl. destruct (DCI.channels self !! channel) as [ch|] eqn:E; [|done].
  rewrite dom_insert_L. apply elem_of_dom_2 in E. set_solver.
Qed.

Lemma ledger_step_channels_dom self c :
  dom (DCI.channels (ledger_step self c)) = dom (DCI.channels self).
Proof.
  destruct c; simpl.
  - apply addInput_channels_dom.
  - destruct (DCI.channels self !! channel) as [ch|] eqn:E; [|done].
    rewrite dom_insert_L. apply elem_of_dom_2 in E. set_solver.
  - by destruct (voteOnPoll_inputs pollId optionIndex userId self) as [_ ->].
Qed.

Lemma ledger_step_channel_names self c :
  (∀ k ch, DCI.channels self !! k = Some ch → DCI.name ch = k) →
  ∀ k ch, DCI.channels (ledger_step self c) !! k = Some ch → DCI.name ch = k.
Proof.
  intros Hn k ch.
  assert (Hadd : ∀ channel i,
    match DCI.channels self !! channel with
    | Some c0 => <[channel := DCI.push_input i c0]> (DCI.channels self)
    | None => DCI.channels self
    end !! k = Some ch → DCI.name ch = k).
  { intros channel i. destruct (DCI.channels self !! channel) as [c0|] eqn:E; [|apply Hn].
    destruct (decide (channel = k)) as [->|Hne].
    - rewrite lookup_insert_eq. intros [= <-]. simpl. by apply Hn.
    - rewrite lookup_insert_ne by done. apply Hn. }
  destruct c; simpl.
  - apply Hadd.
  - apply Hadd.
  - destruct (voteOnPoll_inputs pollId optionIndex userId self) as [_ ->]. apply Hn.
Qed.

End LedgerFrame.

(** The four channels are all there is. After any sequence of calls on a
    new ledger the keys of [channels] are the four that
    [initializeChannels] set, and every channel still carries its key as
    its name: no method adds, removes or renames a channel. *)
Theorem channels_are_fixed (calls : list ledger_call) :
  dom (DCI.channels (ledger_run calls DCI.new)) = channel_keys
  ∧ ∀ k ch, DCI.channels (ledger_run calls DCI.new) !! k = Some ch → DCI.name ch = k.
Proof.
  assert (H : ∀ self,
    dom (DCI.channels self) = channel_keys →
    (∀ k ch, DCI.channels self !! k = Some ch → DCI.name ch = k) →
    dom (DCI.channels (ledger_run calls self)) = channel_keys
    ∧ ∀ k ch, DCI.channels (ledger_run calls self) !! k = Some ch → DCI.name ch = k).
  { induction calls as [|c calls IH]; intros self Hd Hn; [done|].
    apply IH; [by rewrite ledger_step_channels_dom | by apply ledger_step_channel_names]. }
  apply H.
  - unfold DCI.new, DCI.initializeChannels, channel_keys. simpl.
    rewrite !dom_insert_L, dom_empty_L. set_solver.
  - intros k ch. unfold DCI.new, DCI.initializeChannels. simpl.
    rewrite !lookup_insert_Some, lookup_empty. naive_solver.
Qed.

Section LedgerPartition.

Implicit Types (self : DCI.t) (c : ledger_call).

Lemma addInput_partitioned channel input t_id rnd t_stamp self :
  ledger_partitioned self →
  ledger_partitioned (DCI.addInput channel input t_id rnd t_stamp self).2.
Proof.
  intros Hp k ch. simpl. rewrite filter_app.
  destruct (DCI.channels self !! channel) as [c0|] eqn:E.
  - destruct (decide (channel = k)) as [->|Hne].
    + rewrite lookup_insert_eq. intros [= <-]. simpl.
      rewrite filter_cons_True by done. by rewrite (Hp _ _ E).
    + rewrite lookup_insert_ne by done. intros Hk.
      rewrite filter_cons_False by (simpl; congruence).
      rewrite (Hp _ _ Hk). by rewrite app_nil_r.
  - intros Hk. rewrite filter_cons_False by (simpl; congruence).
    rewrite (Hp _ _ Hk). by rewrite app_nil_r.
Qed.

(** [createPoll] ends with an [addInput] on the ledger that holds the
    new poll. *)
Lemma createPoll_state channel (pollData : DCI.PollData)
    t_id t_created t_ends t_in rnd t_stamp self :
  ∃ p,
    (DCI.createPoll channel pollData t_id t_created t_ends t_in rnd t_stamp self).2
    = (DCI.addInput channel
         {| DCI.in_content := Some ("📊 Poll: " +:+ DCI.pd_question pollData);
            DCI.in_author := Some (DCI.pd_author pollData);
            DCI.in_type := Some DCI.poll_input |}
         t_in rnd t_stamp
         (DCI.with_polls self (<["poll_" +:+ show_Z t_id := p]> (DCI.polls self)))).2.
Proof. eexists. reflexivity. Qed.

Lemma ledger_step_partitioned self c :
  ledger_partitioned self → ledger_partitioned (ledger_step self c).
Proof.
  intros Hp. destruct c; unfold ledger_step.
  - by apply addInput_partitioned.
  - destruct (createPoll_state channel pollData t_id t_created t_ends t_in rnd
                t_stamp self) as [p ->].
    apply addInput_partitioned. exact Hp.
  - destruct (voteOnPoll_inputs pollId optionIndex userId self) as [Hi Hc].
    intros k ch. rewrite Hi, Hc. apply Hp.
Qed.

Lemma ledger_run_partitioned (calls : list ledger_call) self :
  ledger_partitioned self → ledger_partitioned (ledger_run calls self).
Proof.
  revert self. induction calls as [|c calls IH]; intros self Hp; [done|].
  apply IH. by apply ledger_step_partitioned.
Qed.

Lemma ledger_step_inputs self c :
  length (DCI.inputs (ledger_step self c))
  = (length (DCI.inputs self) + if adds_input c then 1 else 0)%nat.
Proof.
  destruct c; simpl.
  - by rewrite length_app.
  - by rewrite length_app.
  - destruct (voteOnPoll_inputs pollId optionIndex userId self) as [-> _]. lia.
Qed.

End LedgerPartition.

(** The channels partition the global list. After any sequence of calls
    on a new ledger, the inputs of a channel are exactly the inputs of the
    global list whose [channelId] is the key of the channel, in the same
    order; so a channel query never shows an input of another channel and
    never misses one of its own. *)
Theorem channel_inputs_partition_global_list (calls : list ledger_call)
    (k : string) (ch : DCI.Channel) :
  DCI.channels (ledger_run calls DCI.new) !! k = Some ch →
  DCI.channel_inputs ch
  = filter (fun i => DCI.channelId i = k) (DCI.inputs (ledger_run calls DCI.new)).
Proof.
  apply ledger_run_partitioned. intros k' c'.
  unfold DCI.new, DCI.initializeChannels. simpl.
  rewrite !lookup_insert_Some, lookup_empty. naive_solver.
Qed.

Lemma channel_inputs_partition_global_list_witness :
  ∃ ch, DCI.channels (ledger_run mixed_calls DCI.new) !! "sanctuary" = Some ch
        ∧ DCI.content <$> DCI.channel_inputs ch = ["a"; "c"]
        ∧ DCI.channel_inputs ch
          = filter (fun i => DCI.channelId i = "sanctuary")
                   (DCI.inputs (ledger_run mixed_calls DCI.new)).
Proof.
  eexists. split; [reflexivity|]. split; [reflexivity|].
  apply (channel_inputs_partition_global_list mixed_calls "sanctuary").
  reflexivity.
Defined.

(** The global list counts the calls. After any sequence of calls on a
    new ledger, [totalInputs] is the number of [addInput] and [createPoll]
    calls of the sequence, whatever their channel: a poll announces itself
    with one input, a vote adds none, and nothing is ever removed. *)
Theorem totalInputs_counts_calls (calls : list ledger_call) (t_now t_polls : Z) :
  DCI.totalInputs (DCI.getCommunityActivity t_now t_polls (ledger_run calls DCI.new))
  = length (filter (fun c => adds_input c = true) calls).
Proof.
  simpl.
  assert (H : ∀ self,
    length (DCI.inputs (ledger_run calls self))
    = (length (DCI.inputs self)
       + length (filter (fun c => adds_input c = true) calls))%nat).
  { induction calls as [|c calls IH]; intros self; simpl; [lia|].
    unfold ledger_run in *. simpl. rewrite IH, ledger_step_inputs.
    destruct (adds_input c) eqn:E.
    - rewrite filter_cons_True by done. simpl. lia.
    - rewrite filter_cons_False by (rewrite E; discriminate). lia. }
  rewrite H. reflexivity.
Qed.

(** ** Polls: creation, frame and deadline *)

(** Two polls of one millisecond. The id of a poll is the clock reading
    at its creation; when a poll is already stored under that id,
    [createPoll] overwrites it: the poll found under the id has the new
    options, none of them with a vote, and the number of polls has not
    grown. Whatever votes the earlier poll had collected are gone. *)
Theorem createPoll_same_millisecond_replaces
    (channel : string) (pollData : DCI.PollData)
    (t_id t_created t_ends t_in : Z) (rnd : string) (t_stamp : Z)
    (self : DCI.t) (earlier : DCI.Poll) :
  DCI.polls self !! ("poll_" +:+ show_Z t_id) = Some earlier →
  let r := DCI.createPoll channel pollData t_id t_created t_ends t_in rnd t_stamp self in
  r.1 = "poll_" +:+ show_Z t_id
  ∧ size (DCI.polls r.2) = size (DCI.polls self)
  ∧ ∃ p, DCI.polls r.2 !! r.1 = Some p
         ∧ DCI.text <$> DCI.options p = DCI.pd_options pollData
         ∧ Forall option_fresh (DCI.options p).
Proof.
  intros He. simpl. split; [reflexivity|]. split.
  - apply map_size_insert_Some. by eexists.
  - eexists. split; [apply lookup_insert_eq|]. simpl. split.
    + rewrite <- list_fmap_compose. apply list_fmap_id.
    + apply Forall_fmap, Forall_forall. by intros.
Qed.

Lemma createPoll_same_millisecond_replaces_witness :
  vote_counts poll_AB_id (ledger_run [poll_AB; VoteOnPoll poll_AB_id 0 "u1"] DCI.new)
  = Some [1; 0]
  ∧ size (DCI.polls (ledger_run [poll_AB; VoteOnPoll poll_AB_id 0 "u1"; poll_AB] DCI.new))
    = 1%nat
  ∧ ∃ p, DCI.polls (ledger_run [poll_AB; VoteOnPoll poll_AB_id 0 "u1"; poll_AB] DCI.new)
           !! poll_AB_id = Some p
         ∧ Forall option_fresh (DCI.options p).
Proof.
  split; [reflexivity|].
  destruct (createPoll_same_millisecond_replaces "the-keep"
              {| DCI.pd_question := "A or B?"; DCI.pd_options := ["A"; "B"];
                 DCI.pd_author := "u0"; DCI.pd_duration := None |}
              1700000000000 1700000000000 1700000000000
              1700000000000 "z1y2x3w4v" 1700000000000
              (ledger_run [poll_AB; VoteOnPoll poll_AB_id 0 "u1"] DCI.new)
              (default (DCI.Build_Poll "" "" "" [] "" 0 0 false)
                 (DCI.polls (ledger_run [poll_AB; VoteOnPoll poll_AB_id 0 "u1"] DCI.new)
                    !! poll_AB_id)))
    as (_ & Hsize & p & Hp & _ & Hfresh); [reflexivity|].
  split; [etrans; [exact Hsize | reflexivity]|].
  exists p. split; [exact Hp | exact Hfresh].
Defined.

Section VoteFrame.

Variable u : string.

Let others (l : list string) : list string := filter (fun v => v ≠ u) l.

Lemma others_delete (l : list string) (i : nat) :
  l !! i = Some u → others (delete i l) = others l.
Proof.
  intros Hi. rewrite <- (take_drop_middle _ _ _ Hi) at 2.
  rewrite delete_take_drop. unfold others. rewrite !filter_app.
  by rewrite filter_cons_False by tauto.
Qed.

Lemma others_retract (o : DCI.PollOption) :
  DCI.text (DCI.retract_vote u o) = DCI.text o
  ∧ others (DCI.voters (DCI.retract_vote u o)) = others (DCI.voters o).
Proof.
  unfold DCI.retract_vote.
  destruct (list_find _ _) as [[i x]|] eqn:E; [|done].
  apply list_find_Some in E as (Hi & -> & _). simpl.
  split; [done | by apply others_delete].
Qed.

Lemma others_add (o : DCI.PollOption) :
  DCI.text (DCI.add_vote u o) = DCI.text o
  ∧ others (DCI.voters (DCI.add_vote u o)) = others (DCI.voters o).
Proof.
  split; [done|]. simpl. unfold others. rewrite filter_app.
  rewrite filter_cons_False by tauto. apply app_nil_r.
Qed.

Lemma retracted_same_for_others (os : list DCI.PollOption) :
  Forall2 (same_for_others u) os (DCI.retract_vote u <$> os).
Proof.
  apply Forall2_fmap_r, Forall_Forall2_diag, Forall_forall.
  intros o _. apply others_retract.
Qed.

End VoteFrame.

(** The frame of a vote. Whatever [voteOnPoll] does (return [true],
    return [false] or throw), it touches neither the inputs nor the
    channels nor any other poll; in the poll itself the options keep
    their number, order and text, and the votes of every other user stay
    where they were, in the order in which they were cast. *)
Theorem voteOnPoll_frame (pollId : string) (optionIndex : Z) (userId : string)
    (self : DCI.t) :
  let self' := (DCI.voteOnPoll pollId optionIndex userId self).2 in
  DCI.inputs self' = DCI.inputs self
  ∧ DCI.channels self' = DCI.channels self
  ∧ (∀ other, other ≠ pollId → DCI.polls self' !! other = DCI.polls self !! other)
  ∧ (∀ p', DCI.polls self' !! pollId = Some p' →
       ∃ p, DCI.polls self !! pollId = Some p
            ∧ DCI.question p' = DCI.question p
            ∧ DCI.active p' = DCI.active p
            ∧ DCI.endsAt p' = DCI.endsAt p
            ∧ Forall2 (same_for_others userId) (DCI.options p) (DCI.options p')).
Proof.
  destruct (voteOnPoll_inputs pollId optionIndex userId self) as [Hi Hc].
  simpl. split; [exact Hi|]. split; [exact Hc|].
  assert (Hrefl : ∀ p, Forall2 (same_for_others userId) (DCI.options p) (DCI.options p)).
  { intros p. apply Forall_Forall2_diag, Forall_forall. by intros. }
  unfold DCI.voteOnPoll.
  destruct (DCI.polls self !! pollId) as [p|] eqn:Hp.
  2:{ simpl. split; [done|]. intros p'. rewrite Hp. discriminate. }
  destruct (negb _ || _).
  { simpl. split; [done|]. intros p'. rewrite Hp. intros [= <-]. exists p.
    by repeat split. }
  pose proof (retracted_same_for_others userId (DCI.options p)) as Hret.
  destruct (index _ optionIndex) as [o|] eqn:E; simpl.
  - split; [by intros other Hne; rewrite lookup_insert_ne|].
    intros p'. rewrite lookup_insert_eq. intros [= <-].
    exists p. repeat (split; [done|]). simpl.
    apply index_Some in E as [_ E].
    apply list_lookup_fmap_Some in E as (o0 & -> & Ho0).
    rewrite <- (list_insert_id (DCI.options p) (Z.to_nat optionIndex) o0) at 1 by done.
    apply Forall2_insert; [exact Hret|].
    destruct (others_retract userId o0) as [Ht Hv].
    split; simpl; [exact Ht|].
    rewrite filter_app, filter_cons_False by tauto. rewrite app_nil_r. exact Hv.
  - split; [by intros other Hne; rewrite lookup_insert_ne|].
    intros p'. rewrite lookup_insert_eq. intros [= <-].
    exists p. by repeat (split; [done|]).
Qed.

Lemma ledger_step_polls_active (self : DCI.t) (c : ledger_call) :
  polls_active self → polls_active (ledger_step self c).
Proof.
  intros Ha. destruct c; unfold ledger_step.
  - exact Ha.
  - unfold polls_active. simpl. by apply map_Forall_insert_2.
  - unfold DCI.voteOnPoll.
    destruct (DCI.polls self !! pollId) as [p|] eqn:Hp; [|exact Ha].
    destruct (negb _ || _); [exact Ha|].
    destruct (index _ optionIndex); simpl; unfold polls_active; simpl;
      apply map_Forall_insert_2; try exact Ha; simpl; exact (Ha _ _ Hp).
Qed.

Lemma ledger_run_polls_active (calls : list ledger_call) (self : DCI.t) :
  polls_active self → polls_active (ledger_run calls self).
Proof.
  revert self. induction calls as [|c calls IH]; intros self Ha; [done|].
  apply IH. by apply ledger_step_polls_active.
Qed.

(** Polls do not close. After any sequence of calls on a new ledger every
    poll is still [active]: no method resets the flag, and [voteOnPoll]
    never looks at [endsAt] or at the clock. So a poll whose deadline has
    passed is no longer listed by [getActivePolls], and a vote for any of
    its options is accepted all the same. *)
Theorem expired_poll_accepts_votes (calls : list ledger_call)
    (pollId : string) (p : DCI.Poll) (now optionIndex : Z) (userId : string) :
  DCI.polls (ledger_run calls DCI.new) !! pollId = Some p →
  DCI.endsAt p ≤ now →
  0 ≤ optionIndex < Z.of_nat (length (DCI.options p)) →
  DCI.active p = true
  ∧ (p ∉ DCI.getActivePolls now (ledger_run calls DCI.new))
  ∧ (DCI.voteOnPoll pollId optionIndex userId (ledger_run calls DCI.new)).1
    = Returned true.
Proof.
  intros Hp Hend Hidx.
  assert (Hact : DCI.active p = true).
  { eapply (ledger_run_polls_active calls DCI.new); [|exact Hp].
    unfold polls_active. simpl. apply map_Forall_empty. }
  split; [exact Hact|]. split.
  - unfold DCI.getActivePolls. rewrite list_elem_of_filter. intros [[_ Hlt] _]. lia.
  - unfold DCI.voteOnPoll. rewrite Hp, Hact. simpl.
    destruct (Z.leb_spec (Z.of_nat (length (DCI.options p))) optionIndex); [lia|].
    destruct (index _ optionIndex) eqn:E; [done|].
    apply index_None_in_range in E; [lia|]. rewrite length_fmap. lia.
Qed.

Lemma expired_poll_accepts_votes_witness :
  ∃ p, DCI.polls poll_ledger !! poll_AB_id = Some p
       ∧ DCI.endsAt p = 1700086400000
       ∧ DCI.getActivePolls 1800000000000 poll_ledger = []
       ∧ (DCI.voteOnPoll poll_AB_id 1 "u1" poll_ledger).1 = Returned true.
Proof.
  eexists. split; [reflexivity|]. split; [reflexivity|]. split; [reflexivity|].
  eapply (expired_poll_accepts_votes [poll_AB] poll_AB_id _ 1800000000000 1 "u1").
  - reflexivity.
  - simpl. lia.
  - simpl. lia.
Defined.

(** ** One record per member *)

Lemma filter_all {A : Type} (P : A → Prop) `{!∀ x, Decision (P x)} (l : list A) :
  Forall P l → filter P l = l.
Proof.
  induction 1 as [|x l Hx _ IH]; [done|].
  rewrite filter_cons_True by done. by rewrite IH.
Qed.

Lemma filter_none {A : Type} (P : A → Prop) `{!∀ x, Decision (P x)} (l : list A) :
  Forall (fun x => ¬ P x) l → filter P l = [].
Proof.
  induction 1 as [|x l Hx _ IH]; [done|].
  by rewrite filter_cons_False.
Qed.

Section FirstOccurrence.

Context {A B : Type} `{EqDecision B} (f : A → B) (m : B).

(** Where keys are distinct, removing the first element of key [m] removes
    every element of key [m]. *)
Lemma delete_first_filter (l : list A) (i : nat) (x : A) :
  NoDup (f <$> l) →
  list_find (fun y => f y = m) l = Some (i, x) →
  delete i l = filter (fun y => f y ≠ m) l.
Proof.
  intros Hnd. revert i. induction l as [|a l IH]; intros i Hf; [done|].
  rewrite fmap_cons in Hnd. apply NoDup_cons in Hnd as [Ha Hnd].
  simpl in Hf. destruct (decide (f a = m)) as [Hm|Hm].
  - injection Hf as <- <-. simpl.
    rewrite filter_cons_False by tauto.
    symmetry. apply filter_all, Forall_forall. intros y Hy Hfy.
    apply Ha. rewrite Hm, <- Hfy. apply list_elem_of_fmap. eauto.
  - destruct (list_find _ l) as [[j y]|] eqn:E; [|done].
    injection Hf as <- <-. simpl.
    rewrite filter_cons_True by done. f_equal. by apply IH.
Qed.

Lemma find_none_filter (l : list A) :
  list_find (fun y => f y = m) l = None → filter (fun y => f y ≠ m) l = l.
Proof.
  intros Hn%list_find_None. by apply filter_all.
Qed.

Lemma NoDup_keys_filter (P : A → Prop) `{!∀ x, Decision (P x)} (l : list A) :
  NoDup (f <$> l) → NoDup (f <$> filter P l).
Proof.
  intros Hnd. eapply sublist_NoDup; [exact Hnd|].
  apply fmap_sublist, sublist_filter.
Qed.

Lemma key_not_in_filter (l : list A) : m ∉ f <$> filter (fun y => f y ≠ m) l.
Proof.
  intros (y & -> & Hy)%list_elem_of_fmap.
  apply list_elem_of_filter in Hy as [Hy _]. by apply Hy.
Qed.

End FirstOccurrence.

Section Distinct.

Implicit Types (self : CC.t) (c : coordination_call).

Lemma rsvpToEvent_distinct eventId member rsvp now self :
  rsvps_distinct self →
  rsvps_distinct (CC.rsvpToEvent eventId member rsvp now self).2.
Proof.
  intros Hd. unfold CC.rsvpToEvent.
  destruct (list_find _ _) as [[i e]|] eqn:E; [|exact Hd].
  apply list_find_Some in E as (Hi & _ & _).
  unfold rsvps_distinct in *. simpl. apply Forall_insert; [exact Hd|]. simpl.
  rewrite Forall_lookup in Hd. specialize (Hd _ _ Hi). simpl in Hd.
  rewrite fmap_app. apply NoDup_app. split; [by apply NoDup_keys_filter|].
  split; [|apply NoDup_singleton].
  intros x Hx ->%list_elem_of_singleton.
  by apply (key_not_in_filter CC.memberId member (CC.attendees e)).
Qed.

Lemma retract_ballot_filter member (l : list CC.Ballot) :
  NoDup (CC.ballot_memberId <$> l) →
  CC.retract_ballot member l = filter (fun b => CC.ballot_memberId b ≠ member) l.
Proof.
  intros Hnd. unfold CC.retract_ballot.
  destruct (list_find _ l) as [[i x]|] eqn:E.
  - by apply (delete_first_filter CC.ballot_memberId member l i x).
  - symmetry. by apply find_none_filter.
Qed.

(** Recording a ballot, on an item where nobody has two: the ballot
    joins the other members' ballots, and every earlier ballot of the
    member is gone. *)
Lemma record_ballot_ballots member vote now (it : CC.ConsensusItem) :
  NoDup (CC.ballot_memberId <$> all_ballots it) →
  all_ballots (CC.record_ballot member vote now it)
  ≡ₚ {| CC.ballot_memberId := member; CC.ballot_timestamp := now |}
     :: filter (fun b => CC.ballot_memberId b ≠ member) (all_ballots it).
Proof.
  unfold all_ballots. rewrite !fmap_app. intros Hnd.
  apply NoDup_app in Hnd as (Hs & _ & Hnd).
  apply NoDup_app in Hnd as (Ho & _ & Ha).
  rewrite !filter_app.
  unfold CC.record_ballot. simpl.
  rewrite !retract_ballot_filter by done.
  destruct vote; simpl.
  - rewrite <- app_assoc. simpl. by rewrite <- Permutation_middle.
  - rewrite <- (app_assoc (filter _ (CC.votes_oppose _))). simpl.
    rewrite <- Permutation_middle. by rewrite <- Permutation_middle.
  - rewrite !app_assoc. by rewrite <- Permutation_cons_append.
Qed.

Lemma checkConsensus_ballots now (it : CC.ConsensusItem) :
  all_ballots (CC.checkConsensus now it) = all_ballots it.
Proof. unfold all_ballots. by rewrite checkConsensus_votes. Qed.

Lemma record_ballot_distinct member vote now (it : CC.ConsensusItem) :
  NoDup (CC.ballot_memberId <$> all_ballots it) →
  NoDup (CC.ballot_memberId <$> all_ballots (CC.record_ballot member vote now it)).
Proof.
  intros Hnd. rewrite (record_ballot_ballots _ _ _ _ Hnd). rewrite fmap_cons. simpl.
  apply NoDup_cons. split; [apply key_not_in_filter | by apply NoDup_keys_filter].
Qed.

Lemma coordination_step_distinct self c :
  rsvps_distinct self ∧ ballots_distinct self →
  rsvps_distinct (coordination_step self c)
  ∧ ballots_distinct (coordination_step self c).
Proof.
  intros [Hr Hb]. destruct c as [| eventId m rsvp now | | itemId m v t1 t2]; simpl.
  - split; [|exact Hb]. unfold rsvps_distinct. simpl.
    apply Forall_app. split; [exact Hr|]. repeat constructor.
  - split; [by apply rsvpToEvent_distinct|].
    unfold CC.rsvpToEvent. by destruct (list_find _ _) as [[i e]|].
  - split; [exact Hr|]. unfold ballots_distinct. simpl.
    apply Forall_app. split; [exact Hb|]. repeat constructor.
  - unfold CC.voteOnConsensus.
    destruct (list_find _ _) as [[i it]|] eqn:E; [|by split].
    destruct (decide _); [by split|]. simpl. split; [exact Hr|].
    apply list_find_Some in E as (Hi & _ & _).
    unfold ballots_distinct in *. simpl. apply Forall_insert; [exact Hb|]. simpl.
    rewrite checkConsensus_ballots. apply record_ballot_distinct.
    rewrite Forall_lookup in Hb. exact (Hb _ _ Hi).
Qed.

Lemma coordination_run_distinct (calls : list coordination_call) self :
  rsvps_distinct self ∧ ballots_distinct self →
  rsvps_distinct (coordination_run calls self)
  ∧ ballots_distinct (coordination_run calls self).
Proof.
  revert self. induction calls as [|c calls IH]; intros self H; [exact H|].
  apply IH. by apply coordination_step_distinct.
Qed.

End Distinct.

(** One RSVP per member, one ballot per member. After any sequence of
    calls on a new coordination object, no event lists a member twice
    among its attendees, and no consensus item holds two ballots of one
    member, be it in one of the three arrays or across them. *)
Theorem one_record_per_member (calls : list coordination_call) :
  (∀ i e, CC.events (coordination_run calls CC.new) !! i = Some e →
          NoDup (CC.memberId <$> CC.attendees e))
  ∧ (∀ i it, CC.consensusItems (coordination_run calls CC.new) !! i = Some it →
             NoDup (CC.ballot_memberId <$>
                      (CC.votes_support (CC.item_votes it)
                       ++ CC.votes_oppose (CC.item_votes it)
                       ++ CC.votes_abstain (CC.item_votes it)))).
Proof.
  destruct (coordination_run_distinct calls CC.new) as [Hr Hb].
  { split; constructor. }
  unfold rsvps_distinct, ballots_distinct in *.
  rewrite Forall_lookup in Hr. rewrite Forall_lookup in Hb.
  split; [exact Hr | exact Hb].
Qed.

(** A change of mind moves the ballot. On an item where nobody has two
    ballots (every item reached from a new coordination object is one),
    an accepted vote leaves exactly one ballot of the member on the item,
    the one just cast, and it is the last of the array of the vote. *)
Theorem revote_moves_ballot (itemId member : string) (vote : CC.Vote)
    (t_ballot t_check : Z) (self : CC.t) (i : nat) (it : CC.ConsensusItem) :
  list_find (fun x => CC.item_id x = itemId) (CC.consensusItems self) = Some (i, it) →
  CC.item_status it = CC.voting →
  NoDup (CC.ballot_memberId <$> all_ballots it) →
  ∃ it',
    CC.consensusItems
      (CC.voteOnConsensus itemId member vote t_ballot t_check self).2 !! i = Some it'
    ∧ filter (fun b => CC.ballot_memberId b = member) (all_ballots it')
      = [{| CC.ballot_memberId := member; CC.ballot_timestamp := t_ballot |}]
    ∧ last (ballots_of vote it')
      = Some {| CC.ballot_memberId := member; CC.ballot_timestamp := t_ballot |}
    ∧ filter (fun b => CC.ballot_memberId b ≠ member) (all_ballots it')
      ≡ₚ filter (fun b => CC.ballot_memberId b ≠ member) (all_ballots it).
Proof.
  intros Hf Hs Hnd.
  rewrite (voteOnConsensus_accepted _ _ _ _ _ _ _ _ Hf Hs). simpl.
  apply list_find_Some in Hf as (Hi & _ & _).
  eexists. split; [apply list_lookup_insert_eq; by eapply lookup_lt_Some|].
  rewrite checkConsensus_ballots.
  pose proof (record_ballot_ballots member vote t_ballot it Hnd) as Hperm.
  pose proof (record_ballot_distinct member vote t_ballot it Hnd) as Hnd'.
  split; [|split].
  - (* exactly one ballot of the member *)
    assert (Hin : {| CC.ballot_memberId := member; CC.ballot_timestamp := t_ballot |}
                  ∈ all_ballots (CC.record_ballot member vote t_ballot it)).
    { rewrite Hperm. left. }
    revert Hnd' Hin. generalize (all_ballots (CC.record_ballot member vote t_ballot it)).
    intros l. induction l as [|b l IH]; intros Hnd' Hin; [by apply elem_of_nil in Hin|].
    rewrite fmap_cons in Hnd'. apply NoDup_cons in Hnd' as [Hb Hl].
    apply elem_of_cons in Hin as [<-|Hin].
    + rewrite filter_cons_True by done. f_equal.
      apply filter_none, Forall_forall. intros y Hy Hym.
      apply Hb. simpl. rewrite <- Hym. apply list_elem_of_fmap. eauto.
    + rewrite filter_cons_False; [by apply IH|].
      intros Hbm. apply Hb. rewrite Hbm.
      apply list_elem_of_fmap.
      exists {| CC.ballot_memberId := member; CC.ballot_timestamp := t_ballot |}.
      by split.
  - unfold ballots_of. rewrite checkConsensus_votes.
    destruct vote; simpl; apply last_snoc.
  - rewrite Hperm. rewrite filter_cons_False by (simpl; tauto).
    rewrite list_filter_filter. erewrite list_filter_iff; [reflexivity|]. tauto.
Qed.

Lemma revote_moves_ballot_witness :
  ∃ it',
    CC.consensusItems
      (CC.voteOnConsensus demo_item_id "m1" CC.abstain
         1700000003000 1700000003000 opposed_coordination).2 !! 0%nat = Some it'
    ∧ CC.ballot_memberId <$> CC.votes_oppose (CC.item_votes it') = ["m2"]
    ∧ filter (fun b => CC.ballot_memberId b = "m1") (all_ballots it')
      = [{| CC.ballot_memberId := "m1"; CC.ballot_timestamp := 1700000003000 |}]
    ∧ last (CC.votes_abstain (CC.item_votes it'))
      = Some {| CC.ballot_memberId := "m1"; CC.ballot_timestamp := 1700000003000 |}.
Proof.
  destruct (revote_moves_ballot demo_item_id "m1" CC.abstain
              1700000003000 1700000003000 opposed_coordination 0%nat
              (default (CC.Build_ConsensusItem "" "" "" "" 0 0
                          (CC.Build_Votes [] [] []) CC.failed 0)
                       (CC.consensusItems opposed_coordination !! 0%nat)))
    as (it' & Hit & Hone & Hlast & _).
  - reflexivity.
  - reflexivity.
  - apply (bool_decide_unpack _). vm_compute. exact I.
  - exists it'. split; [exact Hit|]. split; [|split; [exact Hone | exact Hlast]].
    vm_compute in Hit. injection Hit as <-. reflexivity.
Defined.

(** ** Ids that collide *)

Section Shadow.

Implicit Types (self : CC.t) (c : coordination_call).

Lemma coordination_step_item_ids self c j (it : CC.ConsensusItem) :
  CC.consensusItems self !! j = Some it →
  ∃ it', CC.consensusItems (coordination_step self c) !! j = Some it'
         ∧ CC.item_id it' = CC.item_id it.
Proof.
  intros Hj. destruct c as [| eventId m rsvp now | | itemId m v t1 t2]; simpl.
  - eauto.
  - unfold CC.rsvpToEvent. destruct (list_find _ _) as [[k e]|]; eauto.
  - exists it. split; [by apply lookup_app_l_Some | done].
  - unfold CC.voteOnConsensus.
    destruct (list_find _ _) as [[k x]|] eqn:E; [|eauto].
    destruct (decide _); [eauto|]. simpl.
    apply list_find_Some in E as (Hk & _ & _).
    destruct (decide (k = j)) as [->|Hne].
    + rewrite list_lookup_insert_eq by (by eapply lookup_lt_Some).
      eexists. split; [done|].
      rewrite Hj in Hk. injection Hk as <-.
      exact (proj1 (checkConsensus_frame _ _)).
    + rewrite list_lookup_insert_ne by done. eauto.
Qed.

Lemma coordination_step_shadowed_item self c j i (it_j it_i : CC.ConsensusItem) :
  (j < i)%nat →
  CC.consensusItems self !! j = Some it_j →
  CC.consensusItems self !! i = Some it_i →
  CC.item_id it_j = CC.item_id it_i →
  CC.consensusItems (coordination_step self c) !! i = Some it_i.
Proof.
  intros Hlt Hj Hi Hid. destruct c as [| eventId m rsvp now | | itemId m v t1 t2]; simpl.
  - done.
  - unfold CC.rsvpToEvent. by destruct (list_find _ _) as [[k e]|].
  - by apply lookup_app_l_Some.
  - unfold CC.voteOnConsensus.
    destruct (list_find _ _) as [[k x]|] eqn:E; [|done].
    destruct (decide _); [done|]. simpl.
    apply list_find_Some in E as (Hk & Hx & Hmin).
    rewrite list_lookup_insert_ne; [done|]. intros ->.
    rewrite Hi in Hk. injection Hk as <-.
    apply (Hmin j it_j Hj Hlt). congruence.
Qed.

Lemma coordination_step_event_ids self c j (e : CC.CommunityEvent) :
  CC.events self !! j = Some e →
  ∃ e', CC.events (coordination_step self c) !! j = Some e'
        ∧ CC.event_id e' = CC.event_id e.
Proof.
  intros Hj. destruct c as [| eventId m rsvp now | | itemId m v t1 t2]; simpl.
  - exists e. split; [by apply lookup_app_l_Some | done].
  - unfold CC.rsvpToEvent.
    destruct (list_find _ _) as [[k x]|] eqn:E; [|eauto]. simpl.
    apply list_find_Some in E as (Hk & _ & _).
    destruct (decide (k = j)) as [->|Hne].
    + rewrite list_lookup_insert_eq by (by eapply lookup_lt_Some).
      eexists. split; [done|]. rewrite Hj in Hk. by injection Hk as <-.
    + rewrite list_lookup_insert_ne by done. eauto.
  - eauto.
  - unfold CC.voteOnConsensus. destruct (list_find _ _) as [[k x]|]; [|eauto].
    destruct (decide _); eauto.
Qed.

Lemma coordination_step_shadowed_event self c j i (e_j e_i : CC.CommunityEvent) :
  (j < i)%nat →
  CC.events self !! j = Some e_j →
  CC.events self !! i = Some e_i →
  CC.event_id e_j = CC.event_id e_i →
  CC.events (coordination_step self c) !! i = Some e_i.
Proof.
  intros Hlt Hj Hi Hid. destruct c as [| eventId m rsvp now | | itemId m v t1 t2]; simpl.
  - by apply lookup_app_l_Some.
  - unfold CC.rsvpToEvent.
    destruct (list_find _ _) as [[k x]|] eqn:E; [|done]. simpl.
    apply list_find_Some in E as (Hk & Hx & Hmin).
    rewrite list_lookup_insert_ne; [done|]. intros ->.
    rewrite Hi in Hk. injection Hk as <-.
    apply (Hmin j e_j Hj Hlt). congruence.
  - done.
  - unfold CC.voteOnConsensus. destruct (list_find _ _) as [[k x]|]; [|done].
    by destruct (decide _).
Qed.

End Shadow.

(** An id is the clock reading of the creation, and [find] stops at the
    first match. So of two consensus items (or two events) of one id, the
    later one is out of reach: through any sequence of calls it stays
    exactly as it is, without a ballot (without an RSVP) ever reaching
    it; an item in that position stays in status [voting] for good. *)
Theorem later_twin_is_unreachable (calls : list coordination_call) (self : CC.t)
    (j i : nat) :
  (j < i)%nat →
  (∀ it_j it_i,
      CC.consensusItems self !! j = Some it_j →
      CC.consensusItems self !! i = Some it_i →
      CC.item_id it_j = CC.item_id it_i →
      CC.consensusItems (coordination_run calls self) !! i = Some it_i)
  ∧ (∀ e_j e_i,
      CC.events self !! j = Some e_j →
      CC.events self !! i = Some e_i →
      CC.event_id e_j = CC.event_id e_i →
      CC.events (coordination_run calls self) !! i = Some e_i).
Proof.
  intros Hlt. split.
  - revert self. induction calls as [|c calls IH]; intros self it_j it_i Hj Hi Hid; [done|].
    destruct (coordination_step_item_ids self c j it_j Hj) as (it_j' & Hj' & Hid').
    apply (IH _ it_j' it_i); [done| |congruence].
    by eapply coordination_step_shadowed_item.
  - revert self. induction calls as [|c calls IH]; intros self e_j e_i Hj Hi Hid; [done|].
    destruct (coordination_step_event_ids self c j e_j Hj) as (e_j' & Hj' & Hid').
    apply (IH _ e_j' e_i); [done| |congruence].
    by eapply coordination_step_shadowed_event.
Qed.

Lemma later_twin_is_unreachable_witness :
  (CC.item_title <$> CC.consensusItems twin_coordination) = ["first"; "second"]
  ∧ ((fun it => length (all_ballots it))
       <$> CC.consensusItems (coordination_run twin_calls twin_coordination))
    = [3%nat; 0%nat]
  ∧ CC.consensusItems (coordination_run twin_calls twin_coordination) !! 1%nat
    = CC.consensusItems twin_coordination !! 1%nat.
Proof.
  split; [reflexivity|]. split; [reflexivity|].
  destruct (later_twin_is_unreachable twin_calls twin_coordination 0 1) as [Hitems _];
    [lia|].
  rewrite (Hitems
             (default (CC.Build_ConsensusItem "" "" "" "" 0 0
                         (CC.Build_Votes [] [] []) CC.failed 0)
                      (CC.consensusItems twin_coordination !! 0%nat))
             (default (CC.Build_ConsensusItem "" "" "" "" 0 0
                         (CC.Build_Votes [] [] []) CC.failed 0)
                      (CC.consensusItems twin_coordination !! 1%nat)));
    reflexivity.
Defined.

(** ** Upcoming events *)

From stdpp Require Import sorting.

#[local] Open Scope Z_scope.

Section SortBy.

Context {A : Type} (key : A → Z).

Let le_key : relation A := fun a b => key a ≤ key b.

Lemma insert_by_perm (x : A) (l : list A) : insert_by key x l ≡ₚ x :: l.
Proof.
  induction l as [|y l IH]; simpl; [done|].
  destruct (key x <=? key y); [done|].
  by rewrite IH, Permutation_swap.
Qed.

Lemma sort_by_perm (l : list A) : sort_by key l ≡ₚ l.
Proof.
  induction l as [|x l IH]; simpl; [done|].
  by rewrite insert_by_perm, IH.
Qed.

Lemma insert_by_sorted (x : A) (l : list A) :
  StronglySorted le_key l → StronglySorted le_key (insert_by key x l).
Proof.
  induction 1 as [|y l Hl IH Hy]; simpl; [repeat constructor|].
  destruct (Z.leb_spec (key x) (key y)) as [Hxy|Hxy].
  - constructor; [by constructor|]. constructor; [exact Hxy|].
    eapply Forall_impl; [exact Hy|]. unfold le_key. intros z Hz. lia.
  - constructor; [exact IH|].
    rewrite insert_by_perm. constructor; [unfold le_key; lia | exact Hy].
Qed.

Lemma sort_by_sorted (l : list A) : StronglySorted le_key (sort_by key l).
Proof.
  induction l as [|x l IH]; simpl; [constructor|]. by apply insert_by_sorted.
Qed.

(** The sort is stable: elements of one key keep their order. *)
Lemma insert_by_filter_key (k : Z) (x : A) (l : list A) :
  filter (fun a => key a = k) (insert_by key x l)
  = filter (fun a => key a = k) (x :: l).
Proof.
  induction l as [|y l IH]; simpl; [done|].
  destruct (Z.leb_spec (key x) (key y)) as [Hxy|Hxy]; [done|].
  rewrite filter_cons, IH. rewrite !filter_cons.
  repeat case_decide; try done; lia.
Qed.

Lemma sort_by_filter_key (k : Z) (l : list A) :
  filter (fun a => key a = k) (sort_by key l) = filter (fun a => key a = k) l.
Proof.
  induction l as [|x l IH]; simpl; [done|].
  rewrite insert_by_filter_key, !filter_cons. by rewrite IH.
Qed.

End SortBy.

Lemma slice_to_nonnegative {A : Type} (n : Z) (l : list A) :
  0 ≤ n → slice_to n l = take (Z.to_nat n) l.
Proof.
  intros Hn. unfold slice_to.
  destruct (Z.ltb_spec n 0) as [|_]; [lia|].
  destruct (Z.le_ge_cases n (Z.of_nat (length l))) as [Hle|Hge].
  - by rewrite Z.min_l.
  - rewrite Z.min_r by done. rewrite Nat2Z.id.
    rewrite !take_ge by lia. done.
Qed.

Lemma filter_prefix {A : Type} (P : A → Prop) `{!∀ x, Decision (P x)} (l k : list A) :
  l `prefix_of` k → filter P l `prefix_of` filter P k.
Proof. intros [r ->]. rewrite filter_app. by eexists. Qed.

(** What [getUpcomingEvents] returns for a limit that is not negative (5
    when omitted): only events later than [now], each of them an event of
    the scheduler, at most [limit] and as many as there are when fewer;
    in ascending order of [scheduledFor], events of one time in the order
    they were scheduled; and no later event that was left out is
    scheduled before an event that was returned. *)
Theorem upcoming_events_are_the_earliest (limit : option Z) (now : Z) (self : CC.t) :
  0 ≤ default 5 limit →
  let r := getUpcomingEvents limit now self in
  Forall (fun e => now < CC.scheduledFor e ∧ e ∈ CC.events self) r
  ∧ length r
    = Nat.min (Z.to_nat (default 5 limit))
        (length (filter (fun e => now < CC.scheduledFor e) (CC.events self)))
  ∧ StronglySorted (fun a b => CC.scheduledFor a ≤ CC.scheduledFor b) r
  ∧ (∀ t, filter (fun e => CC.scheduledFor e = t) r
          `prefix_of` filter (fun e => CC.scheduledFor e = t) (CC.events self))
  ∧ (∀ e e', e ∈ r → e' ∈ CC.events self → now < CC.scheduledFor e' → e' ∉ r →
             CC.scheduledFor e ≤ CC.scheduledFor e').
Proof.
  intros Hl. unfold getUpcomingEvents. rewrite slice_to_nonnegative by done.
  set (future := filter (fun e => now < CC.scheduledFor e) (CC.events self)).
  set (s := sort_by CC.scheduledFor future). set (n := Z.to_nat (default 5 limit)).
  assert (Hperm : s ≡ₚ future) by apply sort_by_perm.
  assert (Hsorted : StronglySorted (fun a b => CC.scheduledFor a ≤ CC.scheduledFor b) s)
    by apply sort_by_sorted.
  assert (Hsplit : s = take n s ++ drop n s) by (by rewrite take_drop).
  simpl. split; [|split; [|split; [|split]]].
  - apply Forall_forall. intros e He.
    assert (e ∈ future) as [? ?]%list_elem_of_filter; [|done].
    rewrite <- Hperm. by apply (subseteq_take n s).
  - rewrite length_take. by rewrite Hperm.
  - rewrite Hsplit in Hsorted. by apply StronglySorted_app_1_l in Hsorted.
  - intros t. etrans; [apply filter_prefix, prefix_take|].
    unfold s. rewrite sort_by_filter_key. unfold future.
    rewrite list_filter_filter.
    destruct (decide (now < t)) as [Ht|Ht].
    + erewrite list_filter_iff; [reflexivity|]. intros e. simpl. split; [tauto|].
      intros <-. done.
    + rewrite filter_none; [apply prefix_nil|].
      apply Forall_forall. intros e _ [<- ?]. done.
  - intros e e' He He' Hfut Hnot.
    assert (He's : e' ∈ s) by (rewrite Hperm; by apply list_elem_of_filter).
    rewrite Hsplit in He's. apply elem_of_app in He's as [?|Hdrop]; [done|].
    rewrite Hsplit in Hsorted.
    exact (StronglySorted_app_1_elem_of _ _ _ _ _ Hsorted He Hdrop).
Qed.

Lemma upcoming_events_are_the_earliest_witness :
  CC.title <$> getUpcomingEvents (Some 2) 1700000000000 four_events = ["soon"; "late"]
  ∧ CC.title <$> getUpcomingEvents None 1700000000000 four_events
    = ["soon"; "late"; "late too"]
  ∧ StronglySorted (fun a b => CC.scheduledFor a ≤ CC.scheduledFor b)
      (getUpcomingEvents (Some 2) 1700000000000 four_events).
Proof.
  split; [reflexivity|]. split; [reflexivity|].
  apply (upcoming_events_are_the_earliest (Some 2) 1700000000000 four_events).
  simpl. lia.
Defined.

(** ** Thresholds *)

(** No quorum. On an item in status [voting] that has no ballot yet and
    whose threshold is at most 1, as the default 0.67 is, the first ballot
    in support approves the item at once: one supporter is enough, and
    nobody else can vote afterwards. *)
Theorem first_supporter_approves (itemId member other : string) (vote : CC.Vote)
    (t_ballot t_check t_ballot' t_check' : Z)
    (self : CC.t) (i : nat) (it : CC.ConsensusItem) :
  list_find (fun x => CC.item_id x = itemId) (CC.consensusItems self) = Some (i, it) →
  CC.item_status it = CC.voting →
  all_ballots it = [] →
  (CC.consensusThreshold it <=? 1)%float = true →
  let r := CC.voteOnConsensus itemId member CC.support t_ballot t_check self in
  r.1 = true
  ∧ status_of itemId r.2 = Some CC.approved
  ∧ CC.voteOnConsensus itemId other vote t_ballot' t_check' r.2 = (false, r.2).
Proof.
  intros Hf Hs Hempty Hthr.
  unfold all_ballots in Hempty.
  apply app_eq_nil in Hempty as [Hsup Hrest].
  apply app_eq_nil in Hrest as [Hopp Habs].
  simpl. rewrite (voteOnConsensus_accepted _ _ _ _ _ _ _ _ Hf Hs). simpl.
  split; [reflexivity|].
  set (it' := CC.checkConsensus t_check (CC.record_ballot member CC.support t_ballot it)).
  assert (Hst : CC.item_status it' = CC.approved).
  { unfold it', CC.checkConsensus, CC.totalVotes, CC.supportVotes, CC.record_ballot.
    simpl. rewrite Hsup, Hopp, Habs. simpl. rewrite Hthr. reflexivity. }
  assert (Hfind : list_find (fun x => CC.item_id x = itemId)
                    (<[i := it']> (CC.consensusItems self)) = Some (i, it')).
  { pose proof Hf as (Hi & Hid & Hmin)%list_find_Some.
    apply list_find_Some. split; [|split].
    - apply list_lookup_insert_eq. by eapply lookup_lt_Some.
    - unfold it'. by rewrite (proj1 (checkConsensus_frame _ _)).
    - intros j y Hj Hlt. rewrite list_lookup_insert_ne in Hj by lia. eauto. }
  split.
  - unfold status_of. simpl. rewrite Hfind. simpl. by rewrite Hst.
  - eapply voteOnConsensus_rejected; [exact Hfind|]. rewrite Hst. discriminate.
Qed.

Lemma first_supporter_approves_witness :
  (CC.voteOnConsensus demo_item_id "m1" CC.support
     1700000001000 1700000001000 demo_coordination).1 = true
  ∧ status_of demo_item_id
      (CC.voteOnConsensus demo_item_id "m1" CC.support
         1700000001000 1700000001000 demo_coordination).2 = Some CC.approved.
Proof.
  destruct (first_supporter_approves demo_item_id "m1" "m2" CC.oppose
              1700000001000 1700000001000 1700000002000 1700000002000
              demo_coordination 0%nat
              (default (CC.Build_ConsensusItem "" "" "" "" 0 0
                          (CC.Build_Votes [] [] []) CC.failed 0)
                       (CC.consensusItems demo_coordination !! 0%nat)))
    as (Hret & Hstatus & _); try reflexivity.
  split; [exact Hret | exact Hstatus].
Defined.

(** Zero is not a setting. The constructors take their optional numbers
    through [||], so a zero is replaced like an omitted argument: the
    threshold of a new consensus item is never 0 (nor NaN) and is 0.67
    when 0 was asked for; its voting period, the duration of a new event
    and the duration of a new poll are never 0. *)
Theorem zero_settings_fall_back_to_defaults :
  (∀ (itemData : CC.ItemData) (t_id t_created t_ends : Z) (self : CC.t),
      ∃ it,
        CC.consensusItems (CC.createConsensusItem itemData t_id t_created t_ends self).2
        = CC.consensusItems self ++ [it]
        ∧ (CC.consensusThreshold it =? 0)%float = false
        ∧ PrimFloat.is_nan (CC.consensusThreshold it) = false
        ∧ (CC.id_consensusThreshold itemData = Some 0%float →
           CC.consensusThreshold it = 0.67%float)
        ∧ CC.votingEnds it ≠ t_ends
        ∧ (CC.id_votingPeriod itemData = Some 0 → CC.votingEnds it = t_ends + 604800000))
  ∧ (∀ (eventData : CC.EventData) (t_id t_created : Z) (self : CC.t),
      ∃ e,
        CC.events (CC.scheduleEvent eventData t_id t_created self).2
        = CC.events self ++ [e]
        ∧ CC.duration e ≠ 0
        ∧ (CC.ed_duration eventData = Some 0 → CC.duration e = 3600000))
  ∧ (∀ (channel : string) (pollData : DCI.PollData)
       (t_id t_created t_ends t_in : Z) (rnd : string) (t_stamp : Z) (self : DCI.t),
      ∃ p,
        DCI.polls
          (DCI.createPoll channel pollData t_id t_created t_ends t_in rnd t_stamp self).2
          !! ("poll_" +:+ show_Z t_id) = Some p
        ∧ DCI.endsAt p ≠ t_ends
        ∧ (DCI.pd_duration pollData = Some 0 → DCI.endsAt p = t_ends + 86400000)).
Proof.
  assert (Hint : ∀ a d, d ≠ 0 → or_int a d ≠ 0).
  { intros [z|] d Hd; simpl; [|done]. by destruct (decide (z = 0)). }
  split; [|split].
  - intros itemData t_id t_created t_ends self. eexists. split; [reflexivity|]. simpl.
    assert (Hnum : ∀ a, let x := or_num a 0.67 in
              (x =? 0)%float = false ∧ PrimFloat.is_nan x = false).
    { intros [x|]; simpl; [|by split].
      destruct (PrimFloat.eqb x 0) eqn:E1; simpl; [by split|].
      destruct (PrimFloat.is_nan x) eqn:E2; simpl; [by split|]. by split. }
    destruct (Hnum (CC.id_consensusThreshold itemData)) as [H0 Hnan].
    split; [exact H0|]. split; [exact Hnan|].
    split; [by intros ->|].
    split.
    + specialize (Hint (CC.id_votingPeriod itemData) 604800000). lia.
    + by intros ->.
  - intros eventData t_id t_created self. eexists. split; [reflexivity|]. simpl.
    split; [by apply Hint|]. by intros ->.
  - intros channel pollData t_id t_created t_ends t_in rnd t_stamp self.
    eexists. split; [apply lookup_insert_eq|]. simpl. split.
    + specialize (Hint (DCI.pd_duration pollData) 86400000). lia.
    + by intros ->.
Qed.

(** ** The store over time *)

Section Store.

Implicit Types (self : CP.t) (c : store_call).

Lemma saveState_written state self : written_through (CP.saveState state self).
Proof. by right. Qed.

Lemma saveState_dom state self :
  dom (CP.currentState self) ⊆ dom (CP.currentState (CP.saveState state self)).
Proof. simpl. unfold spread. rewrite dom_union_L. set_solver. Qed.

Lemma store_step_written self c : written_through self → written_through (store_step self c).
Proof.
  intros Hw. destruct c; simpl; try apply saveState_written.
  unfold CP.importState. destruct (get_prop _ _) as [v|]; [|exact Hw].
  destruct (strict_eq_string v "1.0"); [apply saveState_written | exact Hw].
Qed.

Lemma store_step_dom self c :
  dom (CP.currentState self) ⊆ dom (CP.currentState (store_step self c)).
Proof.
  destruct c; simpl; try apply saveState_dom.
  unfold CP.importState. destruct (get_prop _ _) as [v|]; [|done].
  destruct (strict_eq_string v "1.0"); [apply saveState_dom | done].
Qed.

End Store.

Section StoreHistory.

Implicit Types (self : CP.t) (c : store_call) (calls : list store_call).

Lemma store_step_state self self' c :
  CP.currentState self = CP.currentState self' →
  CP.currentState (store_step self c) = CP.currentState (store_step self' c).
Proof.
  intros He. destruct c; simpl;
    unfold CP.updateSpiral, CP.updateCommunityParticipation, CP.updatePhase;
    simpl; rewrite ?He; try done.
  unfold CP.importState. destruct (get_prop _ _) as [v|]; [|done].
  destruct (strict_eq_string v "1.0"); simpl; by rewrite ?He.
Qed.

Lemma store_run_state calls self self' :
  CP.currentState self = CP.currentState self' →
  CP.currentState (store_run calls self) = CP.currentState (store_run calls self').
Proof.
  revert self self'. induction calls as [|c calls IH]; intros self self' He; [done|].
  apply IH. by apply store_step_state.
Qed.

Lemma store_step_saves self c :
  reaches_saveState c = true →
  CP.persisted (store_step self c) = Some (CP.currentState (store_step self c)).
Proof.
  destruct c; simpl; try done.
  unfold CP.importState. destruct (get_prop _ _) as [v|]; [|done].
  by intros ->.
Qed.

Lemma store_step_idle self c :
  reaches_saveState c = false → store_step self c = self.
Proof.
  destruct c; simpl; try done.
  unfold CP.importState. destruct (get_prop _ _) as [v|]; [|done].
  by intros ->.
Qed.

Lemma store_step_synced self c :
  CP.persisted self = Some (CP.currentState self) →
  CP.persisted (store_step self c) = Some (CP.currentState (store_step self c)).
Proof.
  intros Hs. destruct (reaches_saveState c) eqn:Hr.
  - by apply store_step_saves.
  - by rewrite store_step_idle.
Qed.

Lemma store_run_synced calls self :
  CP.persisted self = Some (CP.currentState self) →
  CP.persisted (store_run calls self) = Some (CP.currentState (store_run calls self)).
Proof.
  revert self. induction calls as [|c calls IH]; intros self Hs; [done|].
  apply IH. by apply store_step_synced.
Qed.

Lemma store_run_saves calls self :
  Exists (fun c => reaches_saveState c = true) calls →
  CP.persisted (store_run calls self) = Some (CP.currentState (store_run calls self)).
Proof.
  intros He. revert self. induction He as [c calls Hc|c calls _ IH]; intros self.
  - apply (store_run_synced calls (store_step self c)). by apply store_step_saves.
  - apply (IH (store_step self c)).
Qed.

Lemma store_run_idle calls self :
  Forall (fun c => reaches_saveState c = false) calls → store_run calls self = self.
Proof.
  intros Hf. revert self. induction Hf as [|c calls Hc _ IH]; intros self; [done|].
  cbn [store_run foldl]. rewrite store_step_idle by done. apply IH.
Qed.

Lemma store_run_written calls self :
  written_through self → written_through (store_run calls self).
Proof.
  revert self. induction calls as [|c calls IH]; intros self Hw; [done|].
  apply IH. by apply store_step_written.
Qed.

Lemma store_run_dom calls self :
  dom (CP.currentState self) ⊆ dom (CP.currentState (store_run calls self)).
Proof.
  revert self. induction calls as [|c calls IH]; intros self; [done|].
  etrans; [apply store_step_dom | apply IH].
Qed.

Lemma store_eq self self' :
  CP.currentState self = CP.currentState self' →
  CP.persisted self = CP.persisted self' → self = self'.
Proof. destruct self, self'. simpl. by intros -> ->. Qed.

End StoreHistory.

(** The store and the late answer of [loadState]. The constructor starts
    [loadState] and returns; the answer comes between two calls and
    assigns the state without going through [saveState].
    Until the answer, through any [updateSpiral],
    [updateCommunityParticipation], [updatePhase] and [importState] calls,
    what was last handed to storage is the state as it stands (or nothing
    was handed over yet) and the properties of the default state remain.
    When nothing was stored, the answer changes nothing and this goes on.
    When a record was stored, the answer replaces the state by it: the
    calls made before the answer leave no trace in the state, whatever
    the calls made after it; the properties of the record remain; and
    either no later call reaches [saveState], then the state is the
    record while storage still holds what the earlier calls handed over,
    or one does, then storage holds the state again and the store is
    exactly the one in which the earlier calls were never made. *)
Theorem late_load_discards_earlier_calls (before after : list store_call)
    (saved : option obj) (t_id t_active : Z) (platform : string) :
  let early := store_run before (CP.new t_id t_active platform) in
  let final := store_history before saved after t_id t_active platform in
  (written_through early
   ∧ dom (CP.getDefaultState t_id t_active platform) ⊆ dom (CP.currentState early))
  ∧ (saved = None →
     final = store_run (before ++ after) (CP.new t_id t_active platform)
     ∧ written_through final
     ∧ dom (CP.getDefaultState t_id t_active platform) ⊆ dom (CP.currentState final))
  ∧ (∀ record, saved = Some record →
     CP.currentState final
     = CP.currentState (store_history [] saved after t_id t_active platform)
     ∧ dom record ⊆ dom (CP.currentState final)
     ∧ (Forall (fun c => reaches_saveState c = false) after →
        CP.currentState final = record ∧ CP.persisted final = CP.persisted early)
     ∧ (Exists (fun c => reaches_saveState c = true) after →
        CP.persisted final = Some (CP.currentState final)
        ∧ final = store_history [] saved after t_id t_active platform)).
Proof.
  unfold store_history. cbn zeta.
  set (fresh := CP.new t_id t_active platform).
  assert (Hearly : written_through (store_run before fresh)
                   ∧ dom (CP.getDefaultState t_id t_active platform)
                     ⊆ dom (CP.currentState (store_run before fresh))).
  { split; [apply store_run_written; by left | apply (store_run_dom before fresh)]. }
  split; [exact Hearly|]. split.
  - intros ->. simpl. unfold store_run at 3. rewrite foldl_app.
    split; [done|]. split.
    + apply store_run_written, Hearly.
    + etrans; [apply Hearly | apply store_run_dom].
  - intros record ->. simpl.
    set (s1 := store_run before fresh).
    assert (Hstate :
      CP.currentState (store_run after (loadState (Some record) s1))
      = CP.currentState (store_run after (loadState (Some record) fresh)))
      by (by apply store_run_state).
    split; [exact Hstate|]. split; [|split].
    + apply (store_run_dom after (loadState (Some record) s1)).
    + intros Hidle. by rewrite store_run_idle.
    + intros Hsave. split; [by apply store_run_saves|].
      apply store_eq; [exact Hstate|].
      rewrite !store_run_saves by done. f_equal. exact Hstate.
Qed.

(** A late answer at work: the phase set before the answer is gone from
    the state, and storage, which was handed that phase, no longer holds
    the state. *)
Example late_load_leaves_storage_stale :
  let final :=
    store_history [UpdatePhase "bloom" 1700000000002]
                  (Some (<["currentPhase" := VStr "seed"]> ∅)) []
                  1700000000000 1700000000001 "ios" in
  CP.currentState final !! "currentPhase" = Some (VStr "seed")
  ∧ (∃ stored, CP.persisted final = Some stored
               ∧ stored !! "currentPhase" = Some (VStr "bloom"))
  ∧ ¬ written_through final.
Proof.
  split; [reflexivity|]. split; [eexists; split; reflexivity|].
  intros [H|H]; [discriminate H|].
  apply (f_equal (fun o : option obj => o ≫= (fun m => m !! "currentPhase"))) in H.
  vm_compute in H. discriminate H.
Qed.

(** What the three updates touch. [updatePhase] sets [currentPhase] and
    [lastActive] and nothing else. [updateSpiral] and
    [updateCommunityParticipation] replace the properties they are given
    inside [spiral], respectively [community], keep the other properties
    of that record, set [lastActive], and leave every other property of
    the state alone. *)
Theorem updates_merge_one_level_down (self : CP.t) (now : Z) :
  (∀ (newPhase : string),
      let self' := CP.updatePhase newPhase now self in
      CP.currentState self' !! "currentPhase" = Some (VStr newPhase)
      ∧ CP.currentState self' !! "lastActive" = Some (VNum (num_of_Z now))
      ∧ ∀ k, k ≠ "currentPhase" → k ≠ "lastActive" →
             CP.currentState self' !! k = CP.currentState self !! k)
  ∧ (∀ (spiralData spiral : obj),
      CP.currentState self !! "spiral" = Some (VObj spiral) →
      let self' := CP.updateSpiral spiralData now self in
      (∃ spiral',
          CP.currentState self' !! "spiral" = Some (VObj spiral')
          ∧ ∀ k, spiral' !! k
                 = match spiralData !! k with Some v => Some v | None => spiral !! k end)
      ∧ CP.currentState self' !! "lastActive" = Some (VNum (num_of_Z now))
      ∧ ∀ k, k ≠ "spiral" → k ≠ "lastActive" →
             CP.currentState self' !! k = CP.currentState self !! k)
  ∧ (∀ (participationData community : obj),
      CP.currentState self !! "community" = Some (VObj community) →
      let self' := CP.updateCommunityParticipation participationData now self in
      (∃ community',
          CP.currentState self' !! "community" = Some (VObj community')
          ∧ ∀ k, community' !! k
                 = match participationData !! k with
                   | Some v => Some v
                   | None => community !! k
                   end)
      ∧ CP.currentState self' !! "lastActive" = Some (VNum (num_of_Z now))
      ∧ ∀ k, k ≠ "community" → k ≠ "lastActive" →
             CP.currentState self' !! k = CP.currentState self !! k).
Proof.
  split; [|split].
  - intros newPhase. simpl.
    split; [by apply lookup_spread_r|]. split; [by apply lookup_spread_r|].
    intros k H1 H2. apply lookup_spread_l. simpl.
    rewrite !lookup_insert_ne by congruence. apply lookup_empty.
  - intros spiralData spiral Hs. simpl. unfold prop. rewrite Hs. simpl.
    split; [|split].
    + eexists. split; [by apply lookup_spread_r|]. intros k. apply lookup_spread.
    + by apply lookup_spread_r.
    + intros k H1 H2. apply lookup_spread_l. simpl.
      rewrite !lookup_insert_ne by congruence. apply lookup_empty.
  - intros participationData community Hc. simpl. unfold prop. rewrite Hc. simpl.
    split; [|split].
    + eexists. split; [by apply lookup_spread_r|]. intros k. apply lookup_spread.
    + by apply lookup_spread_r.
    + intros k H1 H2. apply lookup_spread_l. simpl.
      rewrite !lookup_insert_ne by congruence. apply lookup_empty.
Qed.

Lemma spread_idempotent (a b : obj) : spread (spread a b) b = spread a b.
Proof.
  apply map_eq. intros k. rewrite !lookup_spread. by destruct (b !! k).
Qed.

(** Importing twice is importing once: a second [importState] of the same
    payload returns what the first returned and leaves the store as the
    first left it. *)
Theorem importState_idempotent (data : value) (self : CP.t) :
  let once := CP.importState data self in
  CP.importState data once.2 = (once.1, once.2).
Proof.
  simpl. unfold CP.importState.
  destruct (get_prop data "version") as [v|]; simpl; [|done].
  destruct (strict_eq_string v "1.0"); simpl; [|done].
  unfold CP.saveState. simpl. by rewrite spread_idempotent.
Qed.

(** ** The facade *)

(** The sync round trip. What [exportForSync] returns on one system,
    handed over as the object it is, [importFromSync] accepts on any
    other: it returns [true]; every
    property of the exporter's consciousness state other than [exportedAt]
    and [version] is found with the same value in the importer; and the
    importer's ledger, events and consensus items are untouched, since
    the payload carries the consciousness state only. *)
Theorem sync_round_trip (exporter importer : CCS.t) (t_export t_sync : Z)
    (platform : string) :
  let payload := CCS.sync_value (CCS.exportForSync t_export t_sync platform exporter) in
  let r := CCS.importFromSync payload importer in
  r.1 = Returned true
  ∧ (∀ k v, CP.currentState (CCS.consciousness exporter) !! k = Some v →
            k ≠ "exportedAt" → k ≠ "version" →
            CP.currentState (CCS.consciousness r.2) !! k = Some v)
  ∧ CCS.discord r.2 = CCS.discord importer
  ∧ CCS.coordination r.2 = CCS.coordination importer.
Proof.
  simpl. unfold CCS.importFromSync, CCS.sync_value, CCS.exportForSync. simpl.
  pose proof (importState_accepts
                (CP.exportState t_export (CCS.consciousness exporter))
                (CCS.consciousness importer)) as Himp.
  unfold prop. rewrite lookup_insert_eq. simpl.
  rewrite Himp by apply lookup_insert_eq.
  simpl. repeat split.
  intros k v Hk He Hv. apply lookup_spread_r. unfold CP.exportState.
  rewrite !lookup_insert_ne by congruence. exact Hk.
Qed.

(** An import is not validated beyond its version, and the price is paid
    later. [importFromSync] accepts a payload whose consciousness record
    has the right version and [null] for [community]; from then on
    [addCommunityInput] throws a [TypeError] on reading
    [community.contributionCount], after the ledger has recorded the
    input and without any update of the consciousness state. *)
Theorem unchecked_import_breaks_addCommunityInput (sys : CCS.t)
    (channelId content author : string)
    (t_id : Z) (rnd : string) (t_stamp t_contrib t_active : Z) :
  let imported := CCS.importFromSync hollow_payload sys in
  let r := CCS.addCommunityInput channelId content author
             t_id rnd t_stamp t_contrib t_active imported.2 in
  imported.1 = Returned true
  ∧ CP.currentState (CCS.consciousness imported.2) !! "community" = Some VNull
  ∧ r.1 = TypeError
  ∧ CCS.consciousness r.2 = CCS.consciousness imported.2
  ∧ (∃ i, DCI.inputs (CCS.discord r.2) = DCI.inputs (CCS.discord sys) ++ [i]
          ∧ DCI.channelId i = channelId ∧ DCI.content i = content).
Proof.
  assert (Himp : CCS.importFromSync hollow_payload sys
                 = (Returned true,
                    CCS.with_consciousness sys
                      (CP.saveState
                         (list_to_map [("version", VStr "1.0"); ("community", VNull)])
                         (CCS.consciousness sys)))) by reflexivity.
  cbv zeta. rewrite Himp. cbn [fst snd].
  set (store' := CP.saveState _ _).
  assert (Hc : CP.currentState store' !! "community" = Some VNull)
    by (by apply lookup_spread_r).
  assert (Hp : prop (CP.getState (CCS.consciousness (CCS.with_consciousness sys store')))
                 "community" = VNull).
  { unfold CP.getState, prop. cbn [CCS.consciousness CCS.with_consciousness].
    by rewrite Hc. }
  split; [reflexivity|]. split; [exact Hc|].
  unfold CCS.addCommunityInput.
  destruct (DCI.addInput _ _ _ _ _ _) as [inputId discord'] eqn:Hadd.
  rewrite Hp. cbn [get_prop fst snd].
  split; [reflexivity|]. split; [reflexivity|].
  cbn [CCS.discord CCS.with_discord].
  injection Hadd as _ <-. cbn [DCI.inputs CCS.discord CCS.with_consciousness].
  eexists. split; [reflexivity|]. cbn [DCI.channelId DCI.content DCI.in_content].
  split; [reflexivity|].
  unfold or_string. destruct (decide (content = "")) as [->|]; reflexivity.
Qed.

(** ** Balanced ternary *)

Section TernaryDigits.

Import Ternary.

Implicit Types (c : Ascii.ascii) (l digits : list Ascii.ascii) (num : Z).

Lemma DIGIT_MAP_range c d : DIGIT_MAP c = Some d → -1 ≤ d ≤ 1.
Proof. unfold DIGIT_MAP. repeat case_decide; intros [= <-]; lia. Qed.

Lemma DIGIT_MAP_inj c1 c2 d : DIGIT_MAP c1 = Some d → DIGIT_MAP c2 = Some d → c1 = c2.
Proof.
  unfold DIGIT_MAP. repeat case_decide; subst; intros [= <-] [=]; try done; lia.
Qed.

Lemma pow3_pos (n : nat) : 0 < 3 ^ Z.of_nat n.
Proof. apply Z.pow_pos_nonneg; lia. Qed.

Lemma pow3_succ (n : nat) : 3 ^ Z.of_nat (S n) = 3 * 3 ^ Z.of_nat n.
Proof. rewrite Nat2Z.inj_succ, Z.pow_succ_r by lia. done. Qed.

(** The loop of [balancedTernaryToDecimalRaw] computes [digits_value]. *)
Lemma decode_loop l (result power : Z) :
  foldl (fun '(result, power) c =>
           (result + default 0 (DIGIT_MAP c) * power, power * 3))
        (result, power) (reverse l)
  = (result + power * digits_value l, power * 3 ^ Z.of_nat (length l)).
Proof.
  revert result power. induction l as [|c l IH]; intros result power.
  - simpl. f_equal; lia.
  - rewrite reverse_cons, foldl_app, IH. cbn [foldl digits_value length].
    rewrite pow3_succ. f_equal; lia.
Qed.

Lemma decode_value (code : string) :
  balancedTernaryToDecimalRaw code = digits_value (String.list_ascii_of_string code).
Proof. unfold balancedTernaryToDecimalRaw. rewrite decode_loop. simpl. lia. Qed.

Lemma digits_value_bound l :
  Forall digit_char l → 2 * Z.abs (digits_value l) + 1 ≤ 3 ^ Z.of_nat (length l).
Proof.
  induction 1 as [|c l [d Hd] _ IH]; [simpl; lia|].
  cbn [digits_value length]. rewrite pow3_succ, Hd. simpl.
  pose proof (DIGIT_MAP_range _ _ Hd). pose proof (pow3_pos (length l)).
  assert (d = -1 ∨ d = 0 ∨ d = 1) as [->|[->| ->]] by lia; lia.
Qed.

(** Of one length, two sequences of digits of one value are the same. *)
Lemma digits_value_inj l1 l2 :
  Forall digit_char l1 → Forall digit_char l2 → length l1 = length l2 →
  digits_value l1 = digits_value l2 → l1 = l2.
Proof.
  intros H1. revert l2. induction H1 as [|c1 l1 [d1 Hd1] Hl1 IH]; intros l2 H2 Hlen Hval.
  - by destruct l2.
  - destruct H2 as [|c2 l2 [d2 Hd2] Hl2]; [done|].
    injection Hlen as Hlen. cbn [digits_value] in Hval.
    rewrite Hd1, Hd2, <- Hlen in Hval. simpl in Hval.
    pose proof (DIGIT_MAP_range _ _ Hd1). pose proof (DIGIT_MAP_range _ _ Hd2).
    pose proof (digits_value_bound l1 Hl1) as B1.
    pose proof (digits_value_bound l2 Hl2) as B2. rewrite <- Hlen in B2.
    assert (d1 = d2).
    { assert (d1 = -1 ∨ d1 = 0 ∨ d1 = 1) as [->|[->| ->]] by lia;
        assert (d2 = -1 ∨ d2 = 0 ∨ d2 = 1) as [->|[->| ->]] by lia; lia. }
    subst d2. f_equal; [by eapply DIGIT_MAP_inj|]. apply IH; [done..|lia].
Qed.

Lemma digits_value_padStart (n : nat) l :
  digits_value (padStart n l) = digits_value l.
Proof.
  unfold padStart. induction (n - length l)%nat as [|k IH]; [done|].
  cbn [replicate app digits_value]. rewrite IH. simpl. lia.
Qed.

Lemma padStart_length (n : nat) l : (n ≤ length (padStart n l))%nat.
Proof. unfold padStart. rewrite length_app, length_replicate. lia. Qed.


Lemma ternary_step (num : Z) :
  num ≠ 0 →
  Z.rem (Z.rem num 3 + 3) 3 = num mod 3
  ∧ (num mod 3 = 2 →
     Z.abs (num / 3 + 1) < Z.abs num ∧ 3 * (num / 3 + 1) - 1 = num)
  ∧ (num mod 3 ≠ 2 →
     Z.abs (num / 3) < Z.abs num ∧ 3 * (num / 3) + num mod 3 = num
     ∧ 0 ≤ num mod 3 ≤ 1).
Proof. intros Hnz. Z.to_euclidean_division_equations. lia. Qed.

(** The loop ends within [|num|] rounds, and its digits spell the number
    it started from in front of the digits it was given. *)
Lemma digits_loop_spec (fuel : nat) num digits :
  Z.abs num ≤ Z.of_nat fuel →
  ∃ out, digits_loop fuel num digits = Some out
         ∧ digits_value out
           = num * 3 ^ Z.of_nat (length digits) + digits_value digits
         ∧ (Forall digit_char digits → Forall digit_char out).
Proof.
  revert num digits. induction fuel as [|fuel IH]; intros num digits Hf.
  - assert (num = 0) as -> by lia. exists digits. simpl. by repeat split.
  - cbn [digits_loop]. destruct (decide (num = 0)) as [->|Hnz].
    { exists digits. by repeat split. }
    destruct (ternary_step num Hnz) as (-> & Htwo & Hless).
    destruct (decide (num mod 3 = 2)) as [H2|H2].
    + destruct (Htwo H2) as [Habs Heq].
      destruct (IH (num / 3 + 1) ("T"%char :: digits)) as (out & -> & Hv & Hd); [lia|].
      exists out. split; [done|]. split.
      * rewrite Hv. cbn [digits_value length]. rewrite pow3_succ. simpl. lia.
      * intros Hds. apply Hd. constructor; [by eexists | done].
    + destruct (Hless H2) as (Habs & Heq & Hr).
      destruct (IH (num / 3)
                  ((if decide (num mod 3 = 0) then "0"%char else "1"%char) :: digits))
        as (out & -> & Hv & Hd); [lia|].
      exists out. split; [done|]. split.
      * rewrite Hv. cbn [digits_value length]. rewrite pow3_succ.
        destruct (decide (num mod 3 = 0)) as [H0|H0]; simpl; nia.
      * intros Hds. apply Hd. constructor; [|done].
        destruct (decide (num mod 3 = 0)); by eexists.
Qed.

Lemma list_ascii_length (s : string) :
  length (String.list_ascii_of_string s) = String.length s.
Proof. induction s as [|c s IH]; simpl; [done | by rewrite IH]. Qed.

Lemma digits_loop_zero (fuel : nat) digits : digits_loop fuel 0 digits = Some digits.
Proof. by destruct fuel. Qed.

(** More fuel than the loop needs changes nothing. *)
Lemma digits_loop_fuel (fuel fuel' : nat) num digits out :
  digits_loop fuel num digits = Some out → (fuel ≤ fuel')%nat →
  digits_loop fuel' num digits = Some out.
Proof.
  revert fuel' num digits. induction fuel as [|fuel IH]; intros fuel' num digits.
  - cbn [digits_loop]. destruct (decide (num = 0)) as [->|]; [|done].
    intros [= <-] _. apply digits_loop_zero.
  - intros Hl Hle. destruct fuel' as [|fuel']; [lia|].
    cbn [digits_loop] in *. destruct (decide (num = 0)); [done|].
    destruct (decide (_ = 2)); (apply IH; [done | lia]).
Qed.




End TernaryDigits.

Section TernaryCodes.

Import Ternary.

Lemma ternary_digits_back (n : Z) :
  ∃ code,
    decimalToBalancedTernaryRaw n = Some code
    ∧ balancedTernaryToDecimalRaw code = n.
Proof.
  unfold decimalToBalancedTernaryRaw. destruct (decide (n = 0)) as [->|Hnz].
  { by exists "00000". }
  destruct (digits_loop_spec (Z.abs_nat n) n []) as (out & -> & Hv & _); [lia|].
  eexists. split; [reflexivity|].
  rewrite decode_value, String.list_ascii_of_string_of_list_ascii.
  rewrite digits_value_padStart, Hv. simpl. lia.
Qed.



(** The bound is the right one. The codes of [ROUND_TRIP_MAX] and of the
    next integer are 34 ones, respectively [1] and 34 times [T]; computed
    in binary64, the first reads back as [ROUND_TRIP_MAX] and so does the
    second, one short of the integer it is the code of. *)
Example rounding_starts_at_35_digits :
  decimalToBalancedTernaryRaw ROUND_TRIP_MAX = Some longest_exact_code
  ∧ decimalToBalancedTernaryRaw (ROUND_TRIP_MAX + 1) = Some shortest_rounded_code
  ∧ balancedTernaryToDecimalRaw_binary64 longest_exact_code
    = num_of_Z ROUND_TRIP_MAX
  ∧ balancedTernaryToDecimalRaw_binary64 shortest_rounded_code
    = num_of_Z ROUND_TRIP_MAX.
Proof.
  assert (Henc : ∀ n out,
    n ≠ 0 → (35 ≤ Z.abs_nat n)%nat → digits_loop 35 n [] = Some out →
    decimalToBalancedTernaryRaw n
    = Some (String.string_of_list_ascii (padStart CODE_LENGTH out))).
  { intros n out Hnz Hfuel Hl. unfold decimalToBalancedTernaryRaw.
    destruct (decide (n = 0)); [done|].
    by rewrite (digits_loop_fuel 35 (Z.abs_nat n) n [] out Hl Hfuel). }
  unfold ROUND_TRIP_MAX.
  split; [|split; [|split]].
  - rewrite (Henc _ (replicate 34 "1"%char)); [done | lia | lia |].
    vm_compute. reflexivity.
  - rewrite (Henc _ ("1"%char :: replicate 34 "T"%char)); [done | lia | lia |].
    vm_compute. reflexivity.
  - vm_compute. reflexivity.
  - vm_compute. reflexivity.
Qed.

Lemma valid_pattern_spec (code : string) :
  VALID_PATTERN code = true ↔
  String.length code = 5%nat ∧ Forall digit_char (String.list_ascii_of_string code).
Proof. unfold VALID_PATTERN. by rewrite bool_decide_eq_true. Qed.

Lemma valid_code_range (code : string) :
  VALID_PATTERN code = true →
  MIN_VALUE ≤ balancedTernaryToDecimalRaw code ≤ MAX_VALUE.
Proof.
  intros [Hlen Hd]%valid_pattern_spec. rewrite decode_value.
  pose proof (digits_value_bound _ Hd) as B.
  rewrite list_ascii_length, Hlen in B. unfold MIN_VALUE, MAX_VALUE.
  change (3 ^ Z.of_nat 5) with 243 in B. lia.
Qed.

Lemma sigil_range_checked :
  Forall (fun n => sigil_code_ok n = true) (seqZ (-121) 243).
Proof. apply (bool_decide_unpack _). vm_compute. exact I. Qed.

Lemma sigil_code_in_range (n : Z) :
  MIN_VALUE ≤ n ≤ MAX_VALUE →
  ∃ code, decimalToBalancedTernaryRaw n = Some code
          ∧ VALID_PATTERN code = true
          ∧ validateTernaryInput code = valid_result.
Proof.
  intros Hn. pose proof sigil_range_checked as H. rewrite Forall_forall in H.
  specialize (H n). unfold sigil_code_ok in H.
  destruct (decimalToBalancedTernaryRaw n) as [code|].
  2:{ discriminate H. apply elem_of_seqZ. unfold MIN_VALUE, MAX_VALUE in Hn. lia. }
  exists code. split; [done|].
  assert (Hin : n ∈ seqZ (-121) 243)
    by (apply elem_of_seqZ; unfold MIN_VALUE, MAX_VALUE in Hn; lia).
  apply H in Hin. repeat (apply andb_prop in Hin as [Hin ?]).
  split; [by destruct (VALID_PATTERN code)|].
  destruct (validateTernaryInput code) as [v e w]. simpl in *.
  unfold valid_result. f_equal.
  - by destruct v.
  - by eapply bool_decide_eq_true_1.
  - by eapply bool_decide_eq_true_1.
Qed.

(** The 243 codes and the sigil range. Every integer from -121 to 121
    converts to a code of exactly five digits, which the validation
    accepts without error or warning; every such code reads as an integer
    of that range and converts back to itself. So the two conversions are
    inverse bijections between the range and the five-digit codes. *)
Theorem sigil_codes_correspond :
  (∀ n, MIN_VALUE ≤ n ≤ MAX_VALUE →
        ∃ code, decimalToBalancedTernaryRaw n = Some code
                ∧ VALID_PATTERN code = true
                ∧ validateTernaryInput code = valid_result
                ∧ balancedTernaryToDecimalRaw code = n)
  ∧ (∀ code, VALID_PATTERN code = true →
             MIN_VALUE ≤ balancedTernaryToDecimalRaw code ≤ MAX_VALUE
             ∧ decimalToBalancedTernaryRaw (balancedTernaryToDecimalRaw code)
               = Some code).
Proof.
  split.
  - intros n Hn. destruct (sigil_code_in_range n Hn) as (code & He & Hp & Hv).
    exists code. repeat (split; [done|]).
    destruct (ternary_digits_back n) as (code' & He' & Hd'). congruence.
  - intros code Hp. pose proof (valid_code_range code Hp) as Hr.
    split; [exact Hr|].
    destruct (sigil_code_in_range _ Hr) as (code' & He & Hp' & _).
    destruct (ternary_digits_back (balancedTernaryToDecimalRaw code))
      as (code'' & He'' & Hd'').
    assert (code'' = code') as -> by congruence.
    rewrite He. f_equal.
    apply valid_pattern_spec in Hp as [Hl Hd].
    apply valid_pattern_spec in Hp' as [Hl' Hd'].
    rewrite !decode_value in Hd''.
    assert (String.list_ascii_of_string code' = String.list_ascii_of_string code).
    { apply digits_value_inj; [done..| |done]. by rewrite !list_ascii_length, Hl, Hl'. }
    rewrite <- (String.string_of_list_ascii_of_string code'),
            <- (String.string_of_list_ascii_of_string code). by f_equal.
Qed.

End TernaryCodes.

Section TernaryValidation.

Import Ternary.

(** The validation and its warning. [validateTernaryInput] accepts an
    input exactly when it is five characters of [T], [0] and [1]; an
    accepted input carries no error, a rejected one always carries one.
    The warning about a value outside the sigil range is never produced:
    a five-digit code cannot read as a number below -121 or above 121, so
    that branch of the function is dead. *)
Theorem validateTernaryInput_never_warns (input : string) :
  warning (validateTernaryInput input) = None
  ∧ isValid (validateTernaryInput input) = VALID_PATTERN input
  ∧ (isValid (validateTernaryInput input) = true →
       error (validateTernaryInput input) = None
       ∧ MIN_VALUE ≤ balancedTernaryToDecimalRaw input ≤ MAX_VALUE)
  ∧ (isValid (validateTernaryInput input) = false →
       is_Some (error (validateTernaryInput input))).
Proof.
  unfold validateTernaryInput.
  destruct (decide (input = "")) as [->|Hne].
  { simpl. split; [done|]. split; [done|]. split; [done|]. by eexists. }
  destruct (decide (String.length input ≠ CODE_LENGTH)) as [Hlen|Hlen].
  { simpl. split; [done|]. split; [|split; [done|by eexists]].
    symmetry. apply not_true_is_false. intros [? _]%valid_pattern_spec. done. }
  destruct (VALID_PATTERN input) eqn:Hp; simpl.
  2:{ split; [done|]. split; [done|]. split; [done|]. by eexists. }
  pose proof (valid_code_range input Hp) as Hr.
  destruct (decide (_ ∨ _)) as [[?|?]|_]; [lia..|]. simpl.
  split; [done|]. split; [done|]. split; [|done]. intros _. split; [done|lia].
Qed.

End TernaryValidation.

Section RoadmapQueries.

Import Roadmap.

Lemma pillar_count (l : list Project) :
  (length (filter (fun project => pillar_string (pillar project) = "sanctuary") l)
   + length (filter (fun project => pillar_string (pillar project) = "tower") l)
   + length (filter (fun project => pillar_string (pillar project) = "temple") l)
   + length (filter (fun project => pillar_string (pillar project) = "keep") l)
   = length l)%nat.
Proof.
  induction l as [|p l IH]; [done|].
  rewrite !filter_cons. destruct (pillar p); simpl;
    repeat (case_decide; try done); simpl; lia.
Qed.

(** The projects by pillar. The four lists that [getProjectsByPillar]
    returns for the four pillars share the projects out: their lengths add
    up to the number of projects, each list keeps the order of the state,
    and a project found by [getProject] is in the list of its own pillar.
    Any other pillar id gives the empty list. *)
Theorem projects_are_shared_out_by_pillar (state : RoadmapState) :
  (length (getProjectsByPillar "sanctuary" state)
   + length (getProjectsByPillar "tower" state)
   + length (getProjectsByPillar "temple" state)
   + length (getProjectsByPillar "keep" state)
   = length (projects state))%nat
  ∧ (∀ pillarId, sublist (getProjectsByPillar pillarId state) (projects state))
  ∧ (∀ projectId project,
       getProject projectId state = Some project →
       id project = projectId
       ∧ project ∈ getProjectsByPillar (pillar_string (pillar project)) state)
  ∧ (∀ pillarId,
       pillarId ∉ pillar_string <$> [sanctuary; tower; temple; keep] →
       getProjectsByPillar pillarId state = []).
Proof.
  unfold getProjectsByPillar, getProject. split; [apply pillar_count|].
  split; [intros; apply sublist_filter|]. split.
  - intros projectId project Hf.
    destruct (list_find _ _) as [[i p]|] eqn:Hfind; [|done].
    simpl in Hf. injection Hf as ->.
    apply list_find_Some in Hfind as (Hi & Hid & _). split; [done|].
    apply list_elem_of_filter. split; [done|]. by eapply list_elem_of_lookup_2.
  - intros pillarId Hout. apply filter_none, Forall_forall. intros p _ Hp. apply Hout.
    rewrite <- Hp. apply list_elem_of_fmap. exists (pillar p). split; [done|].
    destruct (pillar p); set_solver.
Qed.

End RoadmapQueries.
